(** * Luvano marketplace service worker: caching strategies, cache
      lifecycle and push relay

    A shallow embedding of [service-worker.js].  The worker is a set of
    event handlers that run against three host services: the cache
    storage ([caches]), the network ([fetch]) and the notification
    surface ([self.registration.showNotification]).  The handlers are
    written below in a small state-and-exception monad over an explicit
    host state, one definition per function of the source, and the
    properties of the specification are proved about them.

    Host model.
    - A cache generation maps a request identity to a stored response.
      All stored requests are GET requests, so the identity is the
      request URL.  [Vary] matching is not modelled.  The store refuses
      a partial (206) response: [put] then writes nothing, and [addAll]
      rejects.
    - The cache storage is the list of generations in creation order:
      [caches.keys()] and [caches.match] follow that order.
    - The network is an oracle from a request to either a response or a
      rejection; every issued fetch is recorded in the event log.
    - [cache.put] is called without awaiting its promise; the write is
      applied at once, since no later step of the same handler reads it
      back.  The fetch that stale-while-revalidate leaves running when it
      returns a cached copy is a pending task of the host state; the host
      runs pending tasks after the handler has returned. *)

From Stdlib Require Import ZArith String Ascii List Bool SpecFloat.
From stdpp Require Import base option list strings gmap.

Set Warnings "-register-all".

Local Open Scope string_scope.
Local Open Scope Z_scope.
Local Open Scope list_scope.

(* ===================================================================== *)
(** ** Requests, responses and URLs *)
(* ===================================================================== *)

(** The components of [new URL(request.url)] that the worker reads, plus
    the ones that tell two cache keys apart. *)
Record URL : Type := mkURL
  { protocol : string      (* scheme with its colon, as url.protocol *)
  ; hostname : string
  ; port : string
  ; pathname : string
  ; search : string }.

#[global] Instance URL_eq_dec : EqDecision URL.
Proof. solve_decision. Defined.

#[global] Instance URL_countable : Countable URL :=
  inj_countable'
    (fun u => (protocol u, hostname u, port u, pathname u, search u))
    (fun t => match t with (a, b, c, d, e) => mkURL a b c d e end)
    (fun u => match u with mkURL _ _ _ _ _ => eq_refl end).

Record Request : Type := mkRequest
  { method : string
  ; url : URL
  ; destination : string
  ; cache : string         (* the request's cache mode *) }.

Record Response : Type := mkResponse
  { status : Z
  ; statusText : string
  ; body : string }.

(** [response.ok]: the status is in the range 200..299. *)
Definition ok (r : Response) : bool :=
  (200 <=? status r) && (status r <=? 299).

(** A partial response (206 Partial Content), the one status in the ok
    range that the cache store refuses. *)
Definition is_partial (r : Response) : bool := (status r =? 206).

(** A response that the cache store takes from the worker: ok and not
    partial. *)
Definition storable (r : Response) : bool := ok r && negb (is_partial r).

(** [str.startsWith(p)] and [str.includes(p)]. *)
Definition startsWith (str p : string) : bool := String.prefix p str.

Fixpoint includes (str p : string) : bool :=
  String.prefix p str ||
  match str with
  | EmptyString => false
  | String _ rest => includes rest p
  end.

(* ===================================================================== *)
(** ** Configuration constants of the worker *)
(* ===================================================================== *)

Definition CACHE_NAME : string := "luvano-v1.0.0".
Definition STATIC_CACHE : string := "luvano-static-v1".
Definition DYNAMIC_CACHE : string := "luvano-dynamic-v1".

Definition STATIC_ASSETS : list string :=
  [ "/"; "/index.html"; "/login.html"; "/cadastro.html"; "/produto.html";
    "/publicar.html"; "/pagamento.html"; "/perfil.html";
    "/editar-perfil.html"; "/meus-produtos.html"; "/vendedor.html";
    "/carteira.html"; "/levantamento.html"; "/favoritos.html";
    "/compras.html"; "/notificacoes.html"; "/conversas.html"; "/chat.html";
    "/verificar.html"; "/configuracoes.html"; "/sobre.html"; "/admin.html";
    "/admin-usuarios.html"; "/admin-produtos.html";
    "/admin-pagamentos.html"; "/manifest.json" ].

Definition NETWORK_FIRST : list string :=
  [ "supabase.co"; "cdn.jsdelivr.net" ].

(* ===================================================================== *)
(** ** JavaScript values carried by a push payload *)
(* ===================================================================== *)

(** The result of [JSON.parse]; an object keeps its members in textual
    order.  A number is an IEEE double. *)
Inductive JSON : Type :=
  | JNull
  | JBool (b : bool)
  | JNumber (f : spec_float)
  | JString (s : string)
  | JArray (items : list JSON)
  | JObject (members : list (string * JSON)).

(** A JavaScript value here is a JSON value or [undefined] ([None]). *)
Definition truthy (v : option JSON) : bool :=
  match v with
  | None => false
  | Some JNull => false
  | Some (JBool b) => b
  | Some (JNumber (S754_zero _)) => false
  | Some (JNumber S754_nan) => false
  | Some (JNumber _) => true
  | Some (JString s) => negb (String.eqb s "")
  | Some (JArray _) => true
  | Some (JObject _) => true
  end.

(** [a || b] when [b] is a literal. *)
Definition or_else (a : option JSON) (b : JSON) : JSON :=
  match a with
  | Some v => if truthy a then v else b
  | None => b
  end.

(** The member of an object that [JSON.parse] keeps for a name: the last
    one in textual order. *)
Fixpoint member (name : string) (members : list (string * JSON))
  : option JSON :=
  match members with
  | [] => None
  | (k, v) :: rest =>
      match member name rest with
      | Some v' => Some v'
      | None => if String.eqb k name then Some v else None
      end
  end.

(** A push message: [event.data.text()] and [event.data.json()]; the
    latter is [None] when parsing the text throws. *)
Record PushMessageData : Type := mkPushMessageData
  { text : string
  ; json : option JSON }.

(** The options given to [showNotification]; the [icon] and [badge]
    images are two fixed literals and are left out. *)
Record NotificationOptions : Type := mkOptions
  { opt_body : JSON
  ; opt_vibrate : list Z
  ; opt_data_url : JSON
  ; opt_actions : list (string * string)
  ; opt_tag : JSON
  ; opt_renotify : bool }.

(* ===================================================================== *)
(** ** Host state *)
(* ===================================================================== *)

Inductive JsError : Type :=
  | TypeError (msg : string)
  | SyntaxError (msg : string).

Inductive Event : Type :=
  | EvLog (msg : string) (arg : string)
  | EvWarn (msg : string) (err : JsError)
  | EvFetch (r : Request)
  | EvPut (generation : string) (key : URL) (r : Response)
  | EvDelete (generation : string)
  | EvSkipWaiting
  | EvClaim
  | EvNotify (title : JSON) (options : NotificationOptions).

(** A promise that is running detached from the handler that started it. *)
Inductive Task : Type :=
  | Revalidate (generation : string) (request : Request).

Record World : Type := mkWorld
  { location : URL                                (* self.location *)
  ; caches : list (string * gmap URL Response)
  ; network : Request -> option Response          (* None: fetch rejects *)
  ; log : list Event
  ; pending : list Task }.

Definition with_caches (w : World) (cs : list (string * gmap URL Response))
  : World :=
  mkWorld (location w) cs (network w) (log w) (pending w).

Definition with_log (w : World) (l : list Event) : World :=
  mkWorld (location w) (caches w) (network w) l (pending w).

Definition with_pending (w : World) (p : list Task) : World :=
  mkWorld (location w) (caches w) (network w) (log w) p.

(* ===================================================================== *)
(** ** The handler monad: state and exceptions *)
(* ===================================================================== *)

Inductive Completion (A : Type) : Type :=
  | Normal (a : A)
  | Throw (e : JsError).
Arguments Normal {A} a.
Arguments Throw {A} e.

Definition M (A : Type) : Type := World -> Completion A * World.

Definition ret {A} (a : A) : M A := fun w => (Normal a, w).

Definition bind {A B} (m : M A) (k : A -> M B) : M B :=
  fun w =>
    match m w with
    | (Normal a, w') => k a w'
    | (Throw e, w') => (Throw e, w')
    end.

Definition throw {A} (e : JsError) : M A := fun w => (Throw e, w).

(** [try { m } catch (e) { h e }], also [promise.catch(h)]. *)
Definition try_catch {A} (m : M A) (h : JsError -> M A) : M A :=
  fun w =>
    match m w with
    | (Normal a, w') => (Normal a, w')
    | (Throw e, w') => h e w'
    end.

Declare Scope js_scope.
Delimit Scope js_scope with js.
Notation "x <- c1 ;; c2" := (bind c1 (fun x => c2))
  (at level 100, c1 at next level, right associativity) : js_scope.
Notation "c1 ;; c2" := (bind c1 (fun _ => c2))
  (at level 100, right associativity) : js_scope.
Local Open Scope js_scope.

Definition emit (e : Event) : M unit :=
  fun w => (Normal tt, with_log w (log w ++ [e])).

Definition console_log (msg arg : string) : M unit := emit (EvLog msg arg).
Definition console_warn (msg : string) (err : JsError) : M unit :=
  emit (EvWarn msg err).

Definition when (b : bool) (m : M unit) : M unit :=
  if b then m else ret tt.

Fixpoint for_each {A} (f : A -> M unit) (l : list A) : M unit :=
  match l with
  | [] => ret tt
  | x :: rest => f x ;; for_each f rest
  end.

Notation "a === b" := (String.eqb a b) (at level 70, no associativity) : js_scope.
Notation "a !== b" := (negb (String.eqb a b)) (at level 70, no associativity) : js_scope.

(* ===================================================================== *)
(** ** Host services *)
(* ===================================================================== *)

(** *** Cache storage: pure operations on the list of generations *)

Fixpoint generation (name : string) (cs : list (string * gmap URL Response))
  : option (gmap URL Response) :=
  match cs with
  | [] => None
  | (n, c) :: rest => if n === name then Some c else generation name rest
  end.

(** [caches.open(name)] creates the generation when it does not exist. *)
Definition open_generation (name : string)
    (cs : list (string * gmap URL Response)) : list (string * gmap URL Response) :=
  match generation name cs with
  | Some _ => cs
  | None => cs ++ [(name, ∅)]
  end.

Fixpoint put_generation (name : string) (key : URL) (r : Response)
    (cs : list (string * gmap URL Response)) : list (string * gmap URL Response) :=
  match cs with
  | [] => []
  | (n, c) :: rest =>
      if n === name then (n, <[key := r]> c) :: rest
      else (n, c) :: put_generation name key r rest
  end.

Fixpoint delete_generation (name : string)
    (cs : list (string * gmap URL Response)) : list (string * gmap URL Response) :=
  match cs with
  | [] => []
  | (n, c) :: rest =>
      if n === name then delete_generation name rest
      else (n, c) :: delete_generation name rest
  end.

(** [caches.match]: the first generation, in creation order, that holds
    the key. *)
Fixpoint match_all (key : URL) (cs : list (string * gmap URL Response))
  : option Response :=
  match cs with
  | [] => None
  | (_, c) :: rest =>
      match c !! key with
      | Some r => Some r
      | None => match_all key rest
      end
  end.

(** A root-relative path resolved against the worker's own location. *)
Definition resolve (base : URL) (path : string) : URL :=
  mkURL (protocol base) (hostname base) (port base) path "".

(** [new Request(path, { cache: mode })] for a root-relative path. *)
Definition new_Request (base : URL) (path : string) (mode : string) : Request :=
  mkRequest "GET" (resolve base path) "" mode.

(** *** The services as monadic operations *)

Definition self_location : M URL := fun w => (Normal (location w), w).

Definition caches_open (name : string) : M string :=
  fun w => (Normal name, with_caches w (open_generation name (caches w))).

Definition caches_keys : M (list string) :=
  fun w => (Normal (map fst (caches w)), w).

Definition caches_delete (name : string) : M bool :=
  fun w =>
    (Normal (bool_decide (is_Some (generation name (caches w)))),
     with_log (with_caches w (delete_generation name (caches w)))
              (log w ++ [EvDelete name])).

Definition caches_match (key : URL) : M (option Response) :=
  fun w => (Normal (match_all key (caches w)), w).

Definition cache_match (handle : string) (key : URL) : M (option Response) :=
  fun w => (Normal (generation handle (caches w) ≫= fun c => c !! key), w).

(** [cache.put]: a partial response is refused, nothing is written and
    the promise rejects; the worker never awaits that promise, so the
    rejection reaches no handler.  Any other response is written. *)
Definition cache_put (handle : string) (key : URL) (r : Response) : M unit :=
  fun w =>
    if is_partial r then (Normal tt, w)
    else
      (Normal tt,
       with_log (with_caches w (put_generation handle key r (caches w)))
                (log w ++ [EvPut handle key r])).

(** [fetch(request)] in two steps: the call issues the request, the
    promise settles with the network's answer. *)
Definition fetch_start (request : Request) : M unit := emit (EvFetch request).

Definition fetch_result (request : Request) : M Response :=
  fun w =>
    match network w request with
    | Some r => (Normal r, w)
    | None => (Throw (TypeError "Failed to fetch"), w)
    end.

Definition fetch (request : Request) : M Response :=
  fetch_start request ;; fetch_result request.

Fixpoint collect {A B} (f : A -> M B) (l : list A) : M (list B) :=
  match l with
  | [] => ret []
  | x :: rest => y <- f x ;; ys <- collect f rest ;; ret (y :: ys)
  end.

(** [cache.addAll(requests)]: every request is fetched; the promise
    rejects, and nothing is stored, when a fetch rejects or a response
    is not ok or is partial; otherwise all responses are stored. *)
Definition cache_addAll (handle : string) (requests : list Request) : M unit :=
  for_each fetch_start requests ;;
  responses <-
    collect (fun request =>
               response <- fetch_result request ;;
               if storable response then ret (request, response)
               else throw (TypeError "Request failed"))
            requests ;;
  for_each (fun entry => cache_put handle (url (fst entry)) (snd entry))
           responses.

Definition skipWaiting : M unit := emit EvSkipWaiting.
Definition clients_claim : M unit := emit EvClaim.
Definition showNotification (title : JSON) (options : NotificationOptions)
  : M unit := emit (EvNotify title options).

Definition spawn (t : Task) : M unit :=
  fun w => (Normal tt, with_pending w (pending w ++ [t])).

(* ===================================================================== *)
(** ** The worker *)
(* ===================================================================== *)

(** *** Install and activate *)

(** The install handler of the release whose static generation is
    [static]; the promise given to [event.waitUntil]. *)
Definition install_version (static : string) : M unit :=
  console_log "[SW Luvano] Instalando versão:" CACHE_NAME ;;
  try_catch
    (cache <- caches_open static ;;
     console_log "[SW Luvano] Cacheando assets estáticos" "" ;;
     base <- self_location ;;
     cache_addAll cache
       (map (fun url => new_Request base url "reload") STATIC_ASSETS) ;;
     skipWaiting)
    (fun err => console_warn "[SW Luvano] Erro no cache inicial:" err).

Definition on_install : M unit := install_version STATIC_CACHE.

(** The activate handler of the release whose generations are [static]
    and [dynamic]. *)
Definition activate_version (static dynamic : string) : M unit :=
  console_log "[SW Luvano] Activando service worker" "" ;;
  keys <- caches_keys ;;
  clients_claim ;;
  for_each
    (fun key =>
       console_log "[SW Luvano] Removendo cache antigo:" key ;;
       _ <- caches_delete key ;;
       ret tt)
    (List.filter (fun key => (key !== static) && (key !== dynamic)) keys).

Definition on_activate : M unit := activate_version STATIC_CACHE DYNAMIC_CACHE.

(** *** Strategies *)

Definition offlineFallback (request : Request) : M (option Response) :=
  if destination request === "document" then
    base <- self_location ;;
    caches_match (resolve base "/index.html")
  else ret (Some (mkResponse 503 "Sem conexão" "")).

Definition cacheFirst (request : Request) : M (option Response) :=
  cached <- caches_match (url request) ;;
  match cached with
  | Some c => ret (Some c)
  | None =>
      try_catch
        (response <- fetch request ;;
         when (ok response)
           (cache <- caches_open STATIC_CACHE ;;
            cache_put cache (url request) response) ;;
         ret (Some response))
        (fun _ => offlineFallback request)
  end.

Definition networkFirst (request : Request) : M (option Response) :=
  try_catch
    (response <- fetch request ;;
     when (ok response)
       (cache <- caches_open DYNAMIC_CACHE ;;
        cache_put cache (url request) response) ;;
     ret (Some response))
    (fun _ =>
       cached <- caches_match (url request) ;;
       match cached with
       | Some c => ret (Some c)
       | None => offlineFallback request
       end).

(** The continuation of [fetchPromise] once the network has answered:
    [.then(response => ...).catch(() => null)]. *)
Definition revalidate (cache : string) (request : Request)
  : M (option Response) :=
  try_catch
    (response <- fetch_result request ;;
     when (ok response) (cache_put cache (url request) response) ;;
     ret (Some response))
    (fun _ => ret None).

Definition staleWhileRevalidate (request : Request) : M (option Response) :=
  cache <- caches_open DYNAMIC_CACHE ;;
  cached <- cache_match cache (url request) ;;
  fetch_start request ;;
  match cached with
  | Some c =>
      (* [cached || ...] short-circuits: fetchPromise is left running *)
      spawn (Revalidate cache request) ;;
      ret (Some c)
  | None =>
      fetched <- revalidate cache request ;;
      match fetched with
      | Some response => ret (Some response)
      | None => offlineFallback request
      end
  end.

(** The host's event loop: the detached promises run to completion. *)
Definition run_task (t : Task) : M unit :=
  match t with
  | Revalidate cache request => _ <- revalidate cache request ;; ret tt
  end.

Definition settle (w : World) : World :=
  snd (for_each run_task (pending w) (with_pending w [])).

(** *** The fetch dispatcher *)

Inductive Strategy : Type := NetworkFirst | CacheFirst | StaleWhileRevalidate.

(** The chain of tests of the fetch listener; [None] is a bare [return]
    (the event is not answered by the worker). *)
Definition route (request : Request) : option Strategy :=
  let url := url request in
  if method request !== "GET" then None
  else if negb (startsWith (protocol url) "http") then None
  else if existsb (fun domain => includes (hostname url) domain) NETWORK_FIRST
       then Some NetworkFirst
  else if existsb (fun asset => asset === pathname url) STATIC_ASSETS
       then Some CacheFirst
  else if destination request === "image" then Some StaleWhileRevalidate
  else Some NetworkFirst.

Definition apply_strategy (s : Strategy) : Request -> M (option Response) :=
  match s with
  | NetworkFirst => networkFirst
  | CacheFirst => cacheFirst
  | StaleWhileRevalidate => staleWhileRevalidate
  end.

(** The fetch listener: [Some r] is [event.respondWith] resolving to [r]. *)
Definition on_fetch (request : Request) : M (option (option Response)) :=
  match route request with
  | None => ret None
  | Some s => r <- apply_strategy s request ;; ret (Some r)
  end.

(** *** Push notifications *)

(** Property access [data.name] on a parsed payload: it throws on
    [null]; an object answers with its member; the other values have none
    of the properties that the worker reads. *)
Definition get (data : JSON) (name : string) : M (option JSON) :=
  match data with
  | JNull => throw (TypeError "Cannot read properties of null")
  | JObject members => ret (member name members)
  | _ => ret None
  end.

Definition data_json (d : PushMessageData) : M JSON :=
  match json d with
  | Some v => ret v
  | None => throw (SyntaxError "Unexpected token")
  end.

Definition on_push (event_data : option PushMessageData) : M unit :=
  match event_data with
  | None => ret tt
  | Some d =>
      data <- try_catch (data_json d)
                (fun _ => ret (JObject [("title", JString "Luvano");
                                        ("body", JString (text d))])) ;;
      body <- get data "body" ;;
      url <- get data "url" ;;
      tag <- get data "tag" ;;
      let options :=
        {| opt_body := or_else body (JString "Nova notificação")
         ; opt_vibrate := [200; 100; 200]
         ; opt_data_url := or_else url (JString "/notificacoes.html")
         ; opt_actions := [("ver", "Ver"); ("fechar", "Fechar")]
         ; opt_tag := or_else tag (JString "luvano-notif")
         ; opt_renotify := true |} in
      title <- get data "title" ;;
      showNotification (or_else title (JString "🛍️ Luvano")) options
  end.

(* ===================================================================== *)
(** ** Observations on the host state *)
(* ===================================================================== *)

(** The fetches, writes, deletions and notifications of an event log, in
    the order in which they happened. *)
Definition fetches (l : list Event) : list Request :=
  omap (fun e => match e with EvFetch r => Some r | _ => None end) l.

Definition puts (l : list Event) : list (string * URL * Response) :=
  omap (fun e => match e with EvPut g k r => Some (g, k, r) | _ => None end) l.

Definition deletions (l : list Event) : list string :=
  omap (fun e => match e with EvDelete g => Some g | _ => None end) l.

Definition notifications (l : list Event) : list (JSON * NotificationOptions) :=
  omap (fun e => match e with EvNotify t o => Some (t, o) | _ => None end) l.


(** The names of the generations that exist, as [caches.keys()]. *)
Definition keys (w : World) : list string := map fst (caches w).

(** The entry of a generation for a key. *)
Definition entry (name : string) (key : URL) (w : World) : option Response :=
  generation name (caches w) ≫= fun c => c !! key.

(** Every stored response is an ok response. *)
Definition all_ok (cs : list (string * gmap URL Response)) : Prop :=
  forall name c key r, (name, c) ∈ cs -> c !! key = Some r -> ok r = true.

(** Every write recorded in a log stored an ok response. *)
Definition puts_ok (l : list Event) : Prop :=
  forall g k r, (g, k, r) ∈ puts l -> ok r = true.

(** From [w] to [w'] only ok responses were written: the invariant
    [all_ok] is kept and the log grew by writes of ok responses. *)
Definition writes_only_ok (w w' : World) : Prop :=
  (all_ok (caches w) -> all_ok (caches w')) /\
  exists written, log w' = log w ++ written /\ puts_ok written.

(** A computation that only writes ok responses, from any host state. *)
Definition careful {A} (m : M A) : Prop :=
  forall w, writes_only_ok w (m w).2.

(** What can happen to the worker over its life: the events the host
    dispatches, the completion of detached promises, and changes of the
    network's answers. *)
Inductive Occurrence : Type :=
  | Install
  | Activate
  | Fetch (request : Request)
  | Push (data : option PushMessageData)
  | Idle
  | Connectivity (net : Request -> option Response).

Definition occur (w : World) (o : Occurrence) : World :=
  match o with
  | Install => (on_install w).2
  | Activate => (on_activate w).2
  | Fetch request => (on_fetch request w).2
  | Push data => (on_push data w).2
  | Idle => settle w
  | Connectivity net => mkWorld (location w) (caches w) net (log w) (pending w)
  end.

Definition history (os : list Occurrence) (w : World) : World :=
  foldl occur w os.

(** The value of [data.name] when the access does not throw. *)
Definition field (data : JSON) (name : string) : option JSON :=
  match data with
  | JObject members => member name members
  | _ => None
  end.

(** [x] is what a notification shows for a field [v] with a [fallback]:
    the field itself when it is truthy, the fallback otherwise. *)
Definition uses_field (v : option JSON) (fallback x : JSON) : Prop :=
  if truthy v then v = Some x else x = fallback.

(* ===================================================================== *)
(** ** Vocabulary of the routing contract *)
(* ===================================================================== *)

Definition is_GET (request : Request) : Prop := method request = "GET".

(** The scheme is http or https. *)
Definition http_scheme (request : Request) : Prop :=
  protocol (url request) = "http:" \/ protocol (url request) = "https:".

(** The protocol begins with the four letters of "http". *)
Definition http_prefixed (request : Request) : Prop :=
  exists rest, protocol (url request) = "http" +:+ rest.

(** The hostname contains one of the network-first domains. *)
Definition network_first_host (request : Request) : Prop :=
  exists domain before after,
    domain ∈ NETWORK_FIRST /\
    hostname (url request) = before +:+ domain +:+ after.

(** The requests for which a host dispatches fetch events to a worker:
    http and https requests, and requests of the browser's own schemes
    ([chrome-extension:] and the like), none of which begins with the
    letters "http". *)
Definition dispatched (request : Request) : Prop :=
  http_scheme request \/ ~ http_prefixed request.

(** [event.respondWith(answer)]: the event is answered with what the
    promise resolves to. *)
Definition respondWith (answer : M (option Response))
  : M (option (option Response)) :=
  r <- answer ;; ret (Some r).

Definition static_asset (request : Request) : Prop :=
  pathname (url request) ∈ STATIC_ASSETS.

Definition is_image (request : Request) : Prop :=
  destination request = "image".

(* ===================================================================== *)
(** ** Notification clicks and background sync *)
(* ===================================================================== *)

(** A window client, as [clients.matchAll({ type: 'window' })] lists it. *)
Record WindowClient : Type := mkWindowClient
  { client_id : string
  ; client_url : string }.

(** What the click handler does to the notification and to the windows,
    in the order of the calls. *)
Inductive WindowEffect : Type :=
  | Close
  | Navigate (client : WindowClient) (target : JSON)
  | Focus (client : WindowClient)
  | OpenWindow (target : JSON).

(** [self.location.origin] of an http(s) location. *)
Definition origin (base : URL) : string :=
  protocol base +:+ "//" +:+ hostname base +:+
  (if port base === "" then "" else ":" +:+ port base).

(** The [for] loop over the client list and the [openWindow] after it.
    Every client of the list is a window client, so ['focus' in client]
    holds. *)
Fixpoint reuse_or_open (self_origin : string) (target : JSON)
    (clientList : list WindowClient) : list WindowEffect :=
  match clientList with
  | [] => [OpenWindow target]
  | client :: rest =>
      if includes (client_url client) self_origin
      then [Navigate client target; Focus client]
      else reuse_or_open self_origin target rest
  end.

(** The notificationclick listener: [action] is [event.action], [data] is
    [event.notification.data] ([None] when it is undefined) and
    [clientList] is what [clients.matchAll] resolves to. *)
Definition on_notificationclick (base : URL) (action : string)
    (data : option JSON) (clientList : list WindowClient)
  : list WindowEffect :=
  Close ::
  (if action === "fechar" then []
   else
     let target :=
       or_else (data ≫= fun d => field d "url")
               (JString "/notificacoes.html") in
     reuse_or_open (origin base) target clientList).

(** The [data] object that the push handler attaches to a notification. *)
Definition notification_data (options : NotificationOptions) : JSON :=
  JObject [("url", opt_data_url options)].

Definition sincronizarDados : M unit :=
  console_log "[SW Luvano] Dados sincronizados" "".

(** The sync listener; [tag] is [event.tag]. *)
Definition on_sync (tag : string) : M unit :=
  if tag === "luvano-sync" then
    console_log "[SW Luvano] Sincronização em background" "" ;;
    sincronizarDados
  else ret tt.

(* ===================================================================== *)
(** ** Sample requests and host states *)
(* ===================================================================== *)

Definition luvano_location : URL :=
  mkURL "https:" "luvano.app" "" "/service-worker.js" "".

Definition luvano_url (path : string) : URL :=
  mkURL "https:" "luvano.app" "" path "".

Definition navigation (path : string) : Request :=
  mkRequest "GET" (luvano_url path) "document" "default".

Definition picture (path : string) : Request :=
  mkRequest "GET" (luvano_url path) "image" "default".

Definition response_200 : Response := mkResponse 200 "OK" "fresh".
Definition response_stale : Response := mkResponse 200 "OK" "stale".
Definition response_404 : Response := mkResponse 404 "Not Found" "".

Definition online (r : Response) : Request -> option Response :=
  fun _ => Some r.

Definition offline : Request -> option Response := fun _ => None.

(** A worker that has just been registered: nothing cached, nothing
    logged, nothing pending. *)
Definition fresh_world (net : Request -> option Response) : World :=
  mkWorld luvano_location [] net [] [].

Definition world_with (cs : list (string * gmap URL Response))
    (net : Request -> option Response) : World :=
  mkWorld luvano_location cs net [] [].

(** The app shell is in the static generation. *)
Definition shell_world (net : Request -> option Response) : World :=
  world_with
    [(STATIC_CACHE, {[ luvano_url "/index.html" := response_stale ]})] net.

(** A picture is in the dynamic generation. *)
Definition gallery_world (net : Request -> option Response) : World :=
  world_with
    [(DYNAMIC_CACHE, {[ luvano_url "/logo.png" := response_stale ]})] net.

(** The generations left by a previous release. *)
Definition previous_world (net : Request -> option Response) : World :=
  world_with [("luvano-static-v0", ∅); (DYNAMIC_CACHE, ∅)] net.

(** A request whose scheme begins with "http" and is neither http nor
    https. *)
Definition httpx_request : Request :=
  mkRequest "GET" (mkURL "httpx:" "example.org" "" "/catalog" "") "" "default".

Definition api_request : Request :=
  mkRequest "GET" (mkURL "https:" "abc.supabase.co" "" "/rest/v1/produtos" "")
            "" "default".

Definition post_request : Request :=
  mkRequest "POST" (luvano_url "/index.html") "" "default".


(** A string between double quotes, as in a JSON text. *)
Definition quoted (s : string) : string :=
  let dq := String (Ascii false true false false false true false false) "" in
  dq +:+ s +:+ dq.

Definition order_shipped : PushMessageData :=
  mkPushMessageData
    ("{" +:+ quoted "title" +:+ ":" +:+ quoted "Order shipped" +:+ "," +:+
     quoted "body" +:+ ":" +:+ quoted "Your item is on its way" +:+ "," +:+
     quoted "url" +:+ ":" +:+ quoted "/compras.html" +:+ "}")
    (Some (JObject [("title", JString "Order shipped");
                    ("body", JString "Your item is on its way");
                    ("url", JString "/compras.html")])).

Definition plain_text_push : PushMessageData :=
  mkPushMessageData "Promo de hoje" None.

(** A payload that is present and empty; parsing the empty text throws. *)
Definition empty_push : PushMessageData := mkPushMessageData "" None.

(** A picture that only the static generation holds. *)
Definition stocked_world (net : Request -> option Response) : World :=
  world_with
    [(STATIC_CACHE, {[ luvano_url "/logo.png" := response_stale ]});
     (DYNAMIC_CACHE, ∅)] net.


Definition extension_request : Request :=
  mkRequest "GET" (mkURL "chrome-extension:" "abcdef" "" "/content.js" "")
            "script" "default".

Definition response_500 : Response := mkResponse 500 "Internal Server Error" "".

Definition null_push : PushMessageData := mkPushMessageData "null" (Some JNull).

Definition number_push : PushMessageData :=
  mkPushMessageData "42"
    (Some (JNumber (S754_finite false 42%positive 0))).

Definition other_tab : WindowClient :=
  mkWindowClient "w1" "https://example.org/".

Definition shop_tab : WindowClient :=
  mkWindowClient "w2" "https://luvano.app/compras.html".

Definition chat_tab : WindowClient :=
  mkWindowClient "w3" "https://luvano.app/chat.html".

(* ===================================================================== *)
(** ** String tests *)
(* ===================================================================== *)

Lemma append_nil (s : string) : "" +:+ s = s.
Proof. reflexivity. Qed.

Lemma append_cons (a : ascii) (s t : string) :
  String a s +:+ t = String a (s +:+ t).
Proof. reflexivity. Qed.

Lemma startsWith_iff (str p : string) :
  startsWith str p = true <-> exists rest, str = p +:+ rest.
Proof.
  unfold startsWith. revert str.
  induction p as [|a p IH]; intros str.
  - split; [intros _; exists str; reflexivity | intros _; destruct str; reflexivity].
  - destruct str as [|b str]; simpl.
    + split; [discriminate | intros [rest H]; discriminate].
    + destruct (ascii_dec a b) as [->|Hne].
      * rewrite IH. split; intros [rest H]; exists rest.
        -- rewrite append_cons. now rewrite H.
        -- rewrite append_cons in H. now inversion H.
      * split; [discriminate|].
        intros [rest H]. rewrite append_cons in H. congruence.
Qed.

Lemma includes_unfold (str p : string) :
  includes str p =
  startsWith str p ||
  match str with
  | EmptyString => false
  | String _ rest => includes rest p
  end.
Proof. destruct str; reflexivity. Qed.

Lemma includes_iff (str p : string) :
  includes str p = true <->
  exists before after, str = before +:+ p +:+ after.
Proof.
  induction str as [|a str IH]; rewrite includes_unfold, orb_true_iff,
    startsWith_iff.
  - split.
    + intros [[rest H] | H]; [|discriminate]. exists "", rest. exact H.
    + intros [before [after H]]. left. destruct before.
      * exists after. exact H.
      * rewrite append_cons in H. discriminate.
  - rewrite IH. split.
    + intros [[rest H] | [before [after H]]].
      * exists "", rest. exact H.
      * exists (String a before), after. rewrite append_cons. now rewrite H.
    + intros [before [after H]]. destruct before as [|b before].
      * left. exists after. exact H.
      * right. rewrite append_cons in H. inversion H. exists before, after. reflexivity.
Qed.

Lemma eqb_true_iff (a b : string) : (a === b) = true <-> a = b.
Proof. apply String.eqb_eq. Qed.

Lemma eqb_false_iff (a b : string) : (a === b) = false <-> a <> b.
Proof. apply String.eqb_neq. Qed.

Lemma network_first_host_iff (request : Request) :
  existsb (fun domain => includes (hostname (url request)) domain)
          NETWORK_FIRST = true
  <-> network_first_host request.
Proof.
  unfold network_first_host. rewrite existsb_exists. split.
  - intros [domain [Hin Hinc]]. apply includes_iff in Hinc.
    destruct Hinc as [before [after H]].
    exists domain, before, after. split; [now apply list_elem_of_In | exact H].
  - intros [domain [before [after [Hin H]]]]. exists domain. split.
    + now apply list_elem_of_In.
    + apply includes_iff. now exists before, after.
Qed.

Lemma static_asset_iff (request : Request) :
  existsb (fun asset => asset === pathname (url request)) STATIC_ASSETS = true
  <-> static_asset request.
Proof.
  unfold static_asset. rewrite existsb_exists. split.
  - intros [asset [Hin Heq]]. apply eqb_true_iff in Heq. subst.
    now apply list_elem_of_In.
  - intros Hin. exists (pathname (url request)). split.
    + now apply list_elem_of_In.
    + now apply eqb_true_iff.
Qed.

Lemma bool_iff_false (b : bool) (P : Prop) : (b = true <-> P) -> ~ P -> b = false.
Proof. destruct b; [intros [H _] HP; exfalso; auto | reflexivity]. Qed.

(* ===================================================================== *)
(** ** The fetch dispatcher *)
(* ===================================================================== *)

(** The listener answers exactly when a strategy is selected, and then
    with the result of that strategy. *)
Lemma on_fetch_route request w :
  on_fetch request w =
  match route request with
  | None => (Normal None, w)
  | Some s =>
      match apply_strategy s request w with
      | (Normal r, w') => (Normal (Some r), w')
      | (Throw e, w') => (Throw e, w')
      end
  end.
Proof. unfold on_fetch. now destruct (route request). Qed.

(** The chain of tests, read with the prefix test of the source. *)
Lemma route_first_match (request : Request) :
  (~ is_GET request \/ ~ http_prefixed request -> route request = None) /\
  (is_GET request -> http_prefixed request ->
     network_first_host request -> route request = Some NetworkFirst) /\
  (is_GET request -> http_prefixed request ->
     ~ network_first_host request -> static_asset request ->
     route request = Some CacheFirst) /\
  (is_GET request -> http_prefixed request ->
     ~ network_first_host request -> ~ static_asset request ->
     is_image request -> route request = Some StaleWhileRevalidate) /\
  (is_GET request -> http_prefixed request ->
     ~ network_first_host request -> ~ static_asset request ->
     ~ is_image request -> route request = Some NetworkFirst).
Proof.
  pose proof (eqb_true_iff (method request) "GET") as Hm.
  pose proof (startsWith_iff (protocol (url request)) "http") as Hp.
  pose proof (network_first_host_iff request) as Hn.
  pose proof (static_asset_iff request) as Hs.
  pose proof (eqb_true_iff (destination request) "image") as Hi.
  unfold route, is_GET, http_prefixed, is_image.
  set (get := method request === "GET") in *.
  set (http := startsWith (protocol (url request)) "http") in *.
  set (api := existsb _ NETWORK_FIRST) in *.
  set (asset := existsb _ STATIC_ASSETS) in *.
  set (image := destination request === "image") in *.
  clearbody get http api asset image.
  destruct get, http, api, asset, image; cbn [negb];
    intuition (try reflexivity; try discriminate).
Qed.

Lemma http_scheme_prefixed request : http_scheme request -> http_prefixed request.
Proof.
  intros [H | H]; [exists ":" | exists "s:"]; rewrite H; reflexivity.
Qed.

(** C1: for every fetch event that a host dispatches, the listener selects
    by the first matching rule, in this order: a request that is not a GET,
    or whose scheme is not http or https, is not answered (the listener
    returns without responding); a request whose hostname contains a
    network-first domain is answered by network-first; a request whose path
    is an entry of the static asset manifest is answered by cache-first; a
    request whose destination is "image" is answered by
    stale-while-revalidate; every other request is answered by
    network-first. *)
Theorem on_fetch_first_match (request : Request) :
  dispatched request ->
  (~ is_GET request \/ ~ http_scheme request -> on_fetch request = ret None) /\
  (is_GET request -> http_scheme request ->
     network_first_host request ->
     on_fetch request = respondWith (networkFirst request)) /\
  (is_GET request -> http_scheme request ->
     ~ network_first_host request -> static_asset request ->
     on_fetch request = respondWith (cacheFirst request)) /\
  (is_GET request -> http_scheme request ->
     ~ network_first_host request -> ~ static_asset request ->
     is_image request ->
     on_fetch request = respondWith (staleWhileRevalidate request)) /\
  (is_GET request -> http_scheme request ->
     ~ network_first_host request -> ~ static_asset request ->
     ~ is_image request ->
     on_fetch request = respondWith (networkFirst request)).
Proof.
  intros Hd.
  destruct (route_first_match request) as [R1 [R2 [R3 [R4 R5]]]].
  assert (Hrun : forall s, route request = Some s ->
            on_fetch request = respondWith (apply_strategy s request)).
  { intros s Hs. unfold on_fetch. now rewrite Hs. }
  split; [|split; [|split; [|split]]].
  - intros H. unfold on_fetch. rewrite R1; [reflexivity|].
    destruct H as [H | H]; [now left | right].
    destruct Hd as [Hd | Hd]; [contradiction | exact Hd].
  - intros Hg Hh Hn.
    apply (Hrun NetworkFirst), R2; auto using http_scheme_prefixed.
  - intros Hg Hh Hn Hs.
    apply (Hrun CacheFirst), R3; auto using http_scheme_prefixed.
  - intros Hg Hh Hn Hs Hi.
    apply (Hrun StaleWhileRevalidate), R4; auto using http_scheme_prefixed.
  - intros Hg Hh Hn Hs Hi.
    apply (Hrun NetworkFirst), R5; auto using http_scheme_prefixed.
Qed.

(* ===================================================================== *)
(** ** Cache storage lemmas *)
(* ===================================================================== *)

Lemma generation_app_fresh name cs c :
  generation name cs = None -> generation name (cs ++ [(name, c)]) = Some c.
Proof.
  induction cs as [|[n c'] cs IH]; simpl.
  - intros _. now rewrite String.eqb_refl.
  - destruct (n === name); [discriminate | exact IH].
Qed.

Lemma generation_open name name' cs :
  generation name' (open_generation name cs) =
  match generation name' cs with
  | Some c => Some c
  | None => if name === name' then Some ∅ else None
  end.
Proof.
  unfold open_generation.
  destruct (generation name cs) as [c|] eqn:E.
  - destruct (generation name' cs) eqn:E'; [reflexivity|].
    destruct (name === name') eqn:En; [|reflexivity].
    apply eqb_true_iff in En. congruence.
  - induction cs as [|[n c'] cs IH]; simpl in *.
    + reflexivity.
    + destruct (n === name) eqn:En; [discriminate|].
      destruct (n === name'); [reflexivity | now apply IH].
Qed.

Lemma generation_open_same name cs :
  generation name (open_generation name cs) =
  Some (default ∅ (generation name cs)).
Proof.
  rewrite generation_open, String.eqb_refl.
  now destruct (generation name cs).
Qed.

Lemma generation_put name name' key r cs :
  generation name' (put_generation name key r cs) =
  if name === name' then <[key := r]> <$> generation name' cs
  else generation name' cs.
Proof.
  induction cs as [|[n c] cs IH]; simpl.
  - now destruct (name === name').
  - destruct (n === name) eqn:En; simpl.
    + apply eqb_true_iff in En as ->.
      destruct (name === name'); reflexivity.
    + destruct (n === name') eqn:En'; [|exact IH].
      apply eqb_true_iff in En' as ->.
      rewrite String.eqb_sym, En. reflexivity.
Qed.

Lemma keys_put name key r cs :
  map fst (put_generation name key r cs) = map fst cs.
Proof.
  induction cs as [|[n c] cs IH]; simpl; [reflexivity|].
  destruct (n === name); simpl; [reflexivity | now rewrite IH].
Qed.

Lemma storable_iff r :
  storable r = true <-> ok r = true /\ is_partial r = false.
Proof.
  unfold storable. rewrite andb_true_iff, negb_true_iff. reflexivity.
Qed.


Lemma fetches_app l l' : fetches (l ++ l') = fetches l ++ fetches l'.
Proof. apply omap_app. Qed.

Lemma puts_app l l' : puts (l ++ l') = puts l ++ puts l'.
Proof. apply omap_app. Qed.

Lemma deletions_app l l' : deletions (l ++ l') = deletions l ++ deletions l'.
Proof. apply omap_app. Qed.

(** Unfolding of the monad and of the host services in a goal. *)
Ltac run :=
  cbv beta iota zeta delta
    [bind ret throw try_catch when emit console_log console_warn
     fetch fetch_start fetch_result caches_open caches_match cache_match
     cache_put caches_keys caches_delete self_location spawn skipWaiting
     clients_claim showNotification with_log with_caches with_pending
     fst snd location caches network log pending] in *.

(* ===================================================================== *)
(** ** Offline fallback *)
(* ===================================================================== *)

(** The fallback reads the cache storage and changes nothing. *)
Lemma offlineFallback_pure request w :
  exists result, offlineFallback request w = (Normal result, w).
Proof.
  unfold offlineFallback. destruct (destination request === "document"); run; eauto.
Qed.

Lemma offlineFallback_document request w :
  destination request = "document" ->
  offlineFallback request w =
  (Normal (match_all (resolve (location w) "/index.html") (caches w)), w).
Proof.
  intros H. unfold offlineFallback. apply eqb_true_iff in H. rewrite H.
  reflexivity.
Qed.

Lemma offlineFallback_other request w :
  destination request <> "document" ->
  offlineFallback request w = (Normal (Some (mkResponse 503 "Sem conexão" "")), w).
Proof.
  intros H. unfold offlineFallback. apply eqb_false_iff in H. rewrite H.
  reflexivity.
Qed.

(* ===================================================================== *)
(** ** Cache-first *)
(* ===================================================================== *)


(* ===================================================================== *)
(** ** Network-first *)
(* ===================================================================== *)


(** A response outside the ok range is returned as it is and nothing is
    stored, by cache-first and by network-first alike. *)
Lemma cacheFirst_non_ok request w r :
  match_all (url request) (caches w) = None ->
  network w request = Some r -> ok r = false ->
  cacheFirst request w =
  (Normal (Some r), with_log w (log w ++ [EvFetch request])).
Proof.
  destruct w as [loc cs net lg pend]. unfold cacheFirst.
  intros Hc Hn Hok. run. now rewrite Hc, Hn, Hok.
Qed.

Lemma networkFirst_non_ok request w r :
  network w request = Some r -> ok r = false ->
  networkFirst request w =
  (Normal (Some r), with_log w (log w ++ [EvFetch request])).
Proof.
  destruct w as [loc cs net lg pend]. unfold networkFirst.
  intros Hn Hok. run. now rewrite Hn, Hok.
Qed.

(* ===================================================================== *)
(** ** Stale-while-revalidate *)
(* ===================================================================== *)

Lemma open_generation_existing name cs c :
  generation name cs = Some c -> open_generation name cs = cs.
Proof. unfold open_generation. now intros ->. Qed.

Lemma entry_generation name key w r :
  entry name key w = Some r -> exists c, generation name (caches w) = Some c.
Proof.
  unfold entry. destruct (generation name (caches w)) as [c|]; [eauto|discriminate].
Qed.

Lemma keys_open name cs : name ∈ map fst (open_generation name cs).
Proof.
  unfold open_generation. destruct (generation name cs) as [c|] eqn:E.
  - induction cs as [|[n c'] cs IH]; simpl in *; [discriminate|].
    destruct (n === name) eqn:En.
    + apply eqb_true_iff in En as ->. apply list_elem_of_here.
    + apply list_elem_of_further. now apply IH.
  - rewrite map_app. apply elem_of_app. right. apply list_elem_of_here.
Qed.


(* ===================================================================== *)
(** ** Only ok responses are ever stored *)
(* ===================================================================== *)

Lemma all_ok_open name cs : all_ok cs -> all_ok (open_generation name cs).
Proof.
  unfold open_generation, all_ok. intros H name' c key r Hin Hl.
  destruct (generation name cs); [eauto|].
  apply elem_of_app in Hin as [Hin | Hin]; [eauto|].
  apply list_elem_of_singleton in Hin. inversion Hin. subst.
  now rewrite lookup_empty in Hl.
Qed.

Lemma all_ok_tail p cs : all_ok (p :: cs) -> all_ok cs.
Proof.
  intros H name c key r Hin Hl.
  eapply H; [apply list_elem_of_further; exact Hin | exact Hl].
Qed.

Lemma all_ok_put name key r cs :
  ok r = true -> all_ok cs -> all_ok (put_generation name key r cs).
Proof.
  intros Hok. induction cs as [|[n c] cs IH]; [easy|].
  intros H name' c' key' r' Hin Hl. simpl in Hin.
  pose proof (all_ok_tail _ _ H) as Htail.
  destruct (n === name).
  - apply elem_of_cons in Hin as [Heq | Hin].
    + inversion Heq. subst.
      destruct (decide (key = key')) as [->|Hne].
      * rewrite lookup_insert_eq in Hl. congruence.
      * rewrite lookup_insert_ne in Hl by exact Hne.
        eapply H; [apply list_elem_of_here | exact Hl].
    + eapply Htail; eauto.
  - apply elem_of_cons in Hin as [Heq | Hin].
    + inversion Heq. subst. eapply H; [apply list_elem_of_here | exact Hl].
    + eapply IH; eauto.
Qed.

Lemma all_ok_delete name cs : all_ok cs -> all_ok (delete_generation name cs).
Proof.
  induction cs as [|[n c] cs IH]; [easy|].
  intros H. simpl.
  pose proof (all_ok_tail _ _ H) as Htail.
  destruct (n === name); [now apply IH|].
  intros name' c' key r Hin Hl.
  apply elem_of_cons in Hin as [Heq | Hin].
  - inversion Heq. subst. eapply H; [apply list_elem_of_here | exact Hl].
  - eapply IH; eauto.
Qed.

Lemma puts_ok_nil : puts_ok [].
Proof. intros g k r Hin. cbn in Hin. now apply elem_of_nil in Hin. Qed.

Lemma puts_ok_app l l' : puts_ok l -> puts_ok l' -> puts_ok (l ++ l').
Proof.
  intros H H' g k r Hin. rewrite puts_app in Hin.
  apply elem_of_app in Hin as [Hin | Hin]; eauto.
Qed.

Lemma puts_ok_put g k r : ok r = true -> puts_ok [EvPut g k r].
Proof.
  intros Hok g' k' r' Hin. cbn in Hin.
  apply list_elem_of_singleton in Hin. now inversion Hin; subst.
Qed.

Lemma writes_only_ok_refl w : writes_only_ok w w.
Proof.
  split; [easy|]. exists []. split; [now rewrite app_nil_r | apply puts_ok_nil].
Qed.

Lemma writes_only_ok_trans w1 w2 w3 :
  writes_only_ok w1 w2 -> writes_only_ok w2 w3 -> writes_only_ok w1 w3.
Proof.
  intros [H12 [e12 [L12 P12]]] [H23 [e23 [L23 P23]]]. split; [auto|].
  exists (e12 ++ e23). split.
  - now rewrite L23, L12, app_assoc.
  - now apply puts_ok_app.
Qed.

(** *** Carefulness of the monad operations *)

Lemma careful_ret {A} (a : A) : careful (ret a).
Proof. intros w. apply writes_only_ok_refl. Qed.

Lemma careful_throw {A} (e : JsError) : careful (@throw A e).
Proof. intros w. apply writes_only_ok_refl. Qed.

Lemma careful_bind_post {A B} (Q : A -> Prop) (m : M A) (k : A -> M B) :
  (forall w a w', m w = (Normal a, w') -> Q a) ->
  careful m -> (forall a, Q a -> careful (k a)) -> careful (bind m k).
Proof.
  intros HQ Hm Hk w. unfold bind. specialize (Hm w). specialize (HQ w).
  destruct (m w) as [[a|e] w']; [|exact Hm].
  eapply writes_only_ok_trans; [exact Hm|]. apply Hk. eapply HQ. reflexivity.
Qed.

Lemma careful_bind {A B} (m : M A) (k : A -> M B) :
  careful m -> (forall a, careful (k a)) -> careful (bind m k).
Proof.
  intros Hm Hk. apply (careful_bind_post (fun _ => True)); auto.
Qed.

Lemma careful_try_catch {A} (m : M A) (h : JsError -> M A) :
  careful m -> (forall e, careful (h e)) -> careful (try_catch m h).
Proof.
  intros Hm Hh w. unfold try_catch. specialize (Hm w).
  destruct (m w) as [[a|e] w']; [exact Hm|].
  eapply writes_only_ok_trans; [exact Hm|]. apply Hh.
Qed.

Lemma careful_when (b : bool) (m : M unit) :
  (b = true -> careful m) -> careful (when b m).
Proof. destruct b; intros H; [now apply H | apply careful_ret]. Qed.

Lemma careful_quiet {A} (m : M A) :
  (forall w, caches (m w).2 = caches w /\
             exists written, log (m w).2 = log w ++ written /\ puts written = []) ->
  careful m.
Proof.
  intros H w. destruct (H w) as [Hc [written [Hl Hp]]]. split.
  - now rewrite Hc.
  - exists written. split; [exact Hl|].
    intros g k r Hin. rewrite Hp in Hin. now apply elem_of_nil in Hin.
Qed.

Ltac quiet :=
  apply careful_quiet; intros [? ? ? ? ?]; run;
  split; [reflexivity|];
  first [ now exists []; rewrite app_nil_r
        | eexists; split; [reflexivity | reflexivity] ].

Lemma careful_emit e :
  (forall g k r, e <> EvPut g k r) -> careful (emit e).
Proof.
  intros He. apply careful_quiet. intros w. split; [reflexivity|].
  exists [e]. split; [reflexivity|]. destruct e; try reflexivity.
  now elim (He generation0 key r).
Qed.

Lemma careful_console_log msg arg : careful (console_log msg arg).
Proof. now apply careful_emit. Qed.

Lemma careful_console_warn msg err : careful (console_warn msg err).
Proof. now apply careful_emit. Qed.

Lemma careful_fetch_start request : careful (fetch_start request).
Proof. now apply careful_emit. Qed.

Lemma careful_fetch_result request : careful (fetch_result request).
Proof.
  apply careful_quiet. intros [? ? net ? ?]. run.
  destruct (net request); (split; [reflexivity|]);
    exists []; now rewrite app_nil_r.
Qed.

Lemma careful_fetch request : careful (fetch request).
Proof.
  apply careful_bind; [apply careful_fetch_start|].
  intros _. apply careful_fetch_result.
Qed.

Lemma careful_caches_match key : careful (caches_match key).
Proof. quiet. Qed.

Lemma careful_cache_match handle key : careful (cache_match handle key).
Proof. quiet. Qed.

Lemma careful_caches_keys : careful caches_keys.
Proof. quiet. Qed.

Lemma careful_self_location : careful self_location.
Proof. quiet. Qed.

Lemma careful_spawn t : careful (spawn t).
Proof. quiet. Qed.

Lemma careful_skipWaiting : careful skipWaiting.
Proof. now apply careful_emit. Qed.

Lemma careful_clients_claim : careful clients_claim.
Proof. now apply careful_emit. Qed.

Lemma careful_showNotification title options :
  careful (showNotification title options).
Proof. now apply careful_emit. Qed.

Lemma careful_caches_open name : careful (caches_open name).
Proof.
  intros [? cs ? lg ?]. run. split; [apply all_ok_open|].
  exists []. split; [now rewrite app_nil_r | apply puts_ok_nil].
Qed.

Lemma careful_caches_delete name : careful (caches_delete name).
Proof.
  intros [? cs ? lg ?]. run. split; [apply all_ok_delete|].
  exists [EvDelete name]. split; [reflexivity|].
  intros g k r Hin. cbn in Hin. now apply elem_of_nil in Hin.
Qed.

Lemma careful_cache_put handle key r :
  ok r = true -> careful (cache_put handle key r).
Proof.
  intros Hok [? cs ? lg ?]. run.
  destruct (is_partial r); [apply writes_only_ok_refl|].
  split; [now apply all_ok_put|].
  exists [EvPut handle key r]. split; [reflexivity | now apply puts_ok_put].
Qed.

Lemma careful_for_each {A} (f : A -> M unit) (l : list A) :
  (forall x, x ∈ l -> careful (f x)) -> careful (for_each f l).
Proof.
  induction l as [|x l IH]; intros H; simpl; [apply careful_ret|].
  apply careful_bind.
  - apply H. apply list_elem_of_here.
  - intros _. apply IH. intros y Hy. apply H. now apply list_elem_of_further.
Qed.

Create HintDb careful.
#[local] Hint Resolve careful_ret careful_throw careful_console_log
  careful_console_warn careful_fetch_start careful_fetch_result careful_fetch
  careful_caches_match careful_cache_match careful_caches_keys
  careful_self_location careful_spawn careful_skipWaiting
  careful_clients_claim careful_showNotification careful_caches_open
  careful_caches_delete careful_cache_put : careful.

(** One step through a handler body. *)
Ltac careful_step :=
  match goal with
  | |- careful (bind _ _) => apply careful_bind; [|intros ?]
  | |- careful (try_catch _ _) => apply careful_try_catch; [|intros ?]
  | |- careful (when ?b _) =>
      let H := fresh "Hok" in apply careful_when; intros H
  | |- careful (match ?x with _ => _ end) => destruct x
  | |- careful _ => solve [auto with careful]
  end.

Lemma careful_offlineFallback request : careful (offlineFallback request).
Proof. unfold offlineFallback. repeat careful_step. Qed.

Lemma careful_cacheFirst request : careful (cacheFirst request).
Proof.
  unfold cacheFirst. repeat careful_step. apply careful_offlineFallback.
Qed.

Lemma careful_networkFirst request : careful (networkFirst request).
Proof.
  unfold networkFirst. repeat careful_step. apply careful_offlineFallback.
Qed.

Lemma careful_revalidate cache request : careful (revalidate cache request).
Proof. unfold revalidate. repeat careful_step. Qed.

Lemma careful_staleWhileRevalidate request :
  careful (staleWhileRevalidate request).
Proof.
  unfold staleWhileRevalidate. repeat careful_step.
  - apply careful_revalidate.
  - apply careful_offlineFallback.
Qed.

Lemma careful_apply_strategy s request : careful (apply_strategy s request).
Proof.
  destruct s; [apply careful_networkFirst | apply careful_cacheFirst
              | apply careful_staleWhileRevalidate].
Qed.

Lemma careful_run_task t : careful (run_task t).
Proof.
  destruct t. unfold run_task. repeat careful_step. apply careful_revalidate.
Qed.

Lemma settle_writes_only_ok w : writes_only_ok w (settle w).
Proof.
  unfold settle.
  eapply writes_only_ok_trans;
    [|apply (careful_for_each run_task (pending w));
      intros; apply careful_run_task].
  destruct w. split; [easy|].
  exists []. split; [cbn; now rewrite app_nil_r | apply puts_ok_nil].
Qed.

Lemma careful_collect {A B} (f : A -> M B) (l : list A) :
  (forall x, careful (f x)) -> careful (collect f l).
Proof.
  intros H. induction l as [|x l IH]; simpl; [apply careful_ret|].
  repeat careful_step; auto.
Qed.

(** The responses that [cache.addAll] is about to store are storable. *)
Lemma collect_storable_post (requests : list Request) :
  forall w responses w',
    collect (fun request =>
               response <- fetch_result request ;;
               if storable response then ret (request, response)
               else throw (TypeError "Request failed"))
            requests w = (Normal responses, w') ->
    Forall (fun entry : Request * Response => storable entry.2 = true)
           responses.
Proof.
  induction requests as [|request requests IH]; simpl; intros w responses w' H.
  - inversion H. constructor.
  - destruct w as [loc cs net lg pend]. run.
    destruct (net request) as [r|]; [|discriminate].
    destruct (storable r) eqn:Hs; [|discriminate].
    destruct (collect _ requests _) as [[rs|e] w''] eqn:Hc; [|discriminate].
    inversion H. subst. constructor; [exact Hs|].
    eapply IH. exact Hc.
Qed.

(** The responses that [cache.addAll] is about to store are ok. *)
Lemma collect_ok_post (requests : list Request) :
  forall w responses w',
    collect (fun request =>
               response <- fetch_result request ;;
               if storable response then ret (request, response)
               else throw (TypeError "Request failed"))
            requests w = (Normal responses, w') ->
    Forall (fun entry : Request * Response => ok entry.2 = true) responses.
Proof.
  induction requests as [|request requests IH]; simpl; intros w responses w' H.
  - inversion H. constructor.
  - destruct w as [loc cs net lg pend]. run.
    destruct (net request) as [r|]; [|discriminate].
    destruct (storable r) eqn:Hs; [|discriminate].
    apply storable_iff in Hs as [Hok _].
    destruct (collect _ requests _) as [[rs|e] w''] eqn:Hc; [|discriminate].
    inversion H. subst. constructor; [exact Hok|].
    eapply IH. exact Hc.
Qed.

Lemma careful_cache_addAll handle requests :
  careful (cache_addAll handle requests).
Proof.
  unfold cache_addAll. apply careful_bind.
  { apply careful_for_each. auto with careful. }
  intros _.
  apply (careful_bind_post
           (Forall (fun entry : Request * Response => ok entry.2 = true))).
  - intros w a w'. apply collect_ok_post.
  - apply careful_collect. intros request. repeat careful_step.
  - intros responses Hall. apply careful_for_each. intros entry Hin.
    apply careful_cache_put.
    rewrite Forall_forall in Hall. now apply Hall.
Qed.

Lemma careful_install_version static : careful (install_version static).
Proof.
  unfold install_version. repeat careful_step. apply careful_cache_addAll.
Qed.

Lemma careful_activate_version static dynamic :
  careful (activate_version static dynamic).
Proof.
  unfold activate_version. repeat careful_step.
  apply careful_for_each. intros key _. repeat careful_step.
Qed.

Lemma careful_on_fetch request : careful (on_fetch request).
Proof.
  unfold on_fetch. repeat careful_step. apply careful_apply_strategy.
Qed.

Lemma careful_get data name : careful (get data name).
Proof. unfold get. destruct data; auto with careful. Qed.

Lemma careful_data_json d : careful (data_json d).
Proof. unfold data_json. destruct (json d); auto with careful. Qed.

Lemma careful_on_push data : careful (on_push data).
Proof.
  unfold on_push. destruct data as [d|]; [|apply careful_ret].
  repeat careful_step; auto using careful_get, careful_data_json.
Qed.

Lemma occur_writes_only_ok w o : writes_only_ok w (occur w o).
Proof.
  destruct o; cbn [occur].
  - apply careful_install_version.
  - apply careful_activate_version.
  - apply careful_on_fetch.
  - apply careful_on_push.
  - apply settle_writes_only_ok.
  - split; [easy|].
    exists []. split; [cbn; now rewrite app_nil_r | apply puts_ok_nil].
Qed.

Lemma history_writes_only_ok os : forall w, writes_only_ok w (history os w).
Proof.
  unfold history. induction os as [|o os IH]; intros w; cbn [foldl].
  - apply writes_only_ok_refl.
  - eapply writes_only_ok_trans; [apply occur_writes_only_ok | apply IH].
Qed.

(** C9: every strategy keeps the invariant that all stored responses are
    ok responses, also once its detached revalidation has completed; every
    write it performs, at once or in the background, stores a response
    whose status is in the ok range; hence, starting from an empty cache
    storage, every entry of every generation is an ok response, whatever
    events the worker has handled. *)
Theorem strategies_store_only_ok :
  (forall s request w, all_ok (caches w) ->
     all_ok (caches (apply_strategy s request w).2) /\
     all_ok (caches (settle (apply_strategy s request w).2))) /\
  (forall s request w, exists written,
     log (settle (apply_strategy s request w).2) = log w ++ written /\
     forall generation key r,
       (generation, key, r) ∈ puts written -> ok r = true) /\
  (forall os w, caches w = [] ->
     forall name key r,
       entry name key (history os w) = Some r -> ok r = true).
Proof.
  split; [|split].
  - intros s request w H.
    pose proof (careful_apply_strategy s request w) as [H1 _].
    pose proof (settle_writes_only_ok (apply_strategy s request w).2) as [H2 _].
    auto.
  - intros s request w.
    pose proof (writes_only_ok_trans _ _ _
                  (careful_apply_strategy s request w)
                  (settle_writes_only_ok (apply_strategy s request w).2))
      as [_ H].
    exact H.
  - intros os w Hw name key r He.
    pose proof (history_writes_only_ok os w) as [H _].
    assert (Hall : all_ok (caches (history os w))).
    { apply H. rewrite Hw. intros ? ? ? ? Hin. now apply elem_of_nil in Hin. }
    unfold entry in He.
    destruct (generation name (caches (history os w))) as [c|] eqn:Hg;
      [|discriminate].
    eapply (Hall name c key r); [|exact He].
    clear -Hg. induction (caches (history os w)) as [|[n c'] cs IH];
      simpl in Hg; [discriminate|].
    destruct (n === name) eqn:En.
    + apply eqb_true_iff in En. inversion Hg. subst. apply list_elem_of_here.
    + apply list_elem_of_further. now apply IH.
Qed.

(* ===================================================================== *)
(** ** Activation *)
(* ===================================================================== *)

Lemma keys_delete_iff name cs k :
  k ∈ map fst (delete_generation name cs) <-> k ∈ map fst cs /\ k <> name.
Proof.
  induction cs as [|[n c] cs IH]; simpl.
  - split; [intros H; now apply elem_of_nil in H | intros [H _]; exact H].
  - destruct (n === name) eqn:En.
    + apply eqb_true_iff in En as ->. rewrite IH, elem_of_cons. intuition.
    + apply eqb_false_iff in En. simpl. rewrite !elem_of_cons, IH.
      intuition congruence.
Qed.

Lemma generation_delete name name' cs :
  generation name' (delete_generation name cs) =
  if name === name' then None else generation name' cs.
Proof.
  induction cs as [|[n c] cs IH]; simpl.
  - now destruct (name === name').
  - destruct (n === name) eqn:En.
    + apply eqb_true_iff in En as ->. rewrite IH.
      now destruct (name === name').
    + simpl. destruct (n === name') eqn:En'; [|exact IH].
      apply eqb_true_iff in En' as ->.
      now rewrite String.eqb_sym, En.
Qed.

Lemma keys_delete_all l : forall cs k,
  k ∈ map fst (foldl (fun cs key => delete_generation key cs) cs l)
  <-> k ∈ map fst cs /\ k ∉ l.
Proof.
  induction l as [|x l IH]; intros cs k; cbn [foldl].
  - split; [intros H; split; [exact H | apply not_elem_of_nil] | now intros [H _]].
  - rewrite IH, keys_delete_iff, not_elem_of_cons. intuition.
Qed.

Lemma generation_delete_all l : forall cs k,
  k ∉ l ->
  generation k (foldl (fun cs key => delete_generation key cs) cs l) =
  generation k cs.
Proof.
  induction l as [|x l IH]; intros cs k Hk; cbn [foldl]; [reflexivity|].
  apply not_elem_of_cons in Hk as [Hne Hk].
  rewrite IH by exact Hk. rewrite generation_delete.
  destruct (x === k) eqn:E; [|reflexivity].
  apply eqb_true_iff in E. congruence.
Qed.

Lemma delete_each_run l : forall w,
  for_each
    (fun key =>
       console_log "[SW Luvano] Removendo cache antigo:" key ;;
       _ <- caches_delete key ;;
       ret tt) l w =
  (Normal tt,
   mkWorld (location w)
     (foldl (fun cs key => delete_generation key cs) (caches w) l)
     (network w)
     (log w ++
      flat_map (fun key => [EvLog "[SW Luvano] Removendo cache antigo:" key;
                            EvDelete key]) l)
     (pending w)).
Proof.
  induction l as [|x l IH]; intros [loc cs net lg pend]; cbn [for_each].
  - run. cbn. now rewrite app_nil_r.
  - run. rewrite IH. cbn. now rewrite <- !app_assoc.
Qed.

Lemma deletions_delete_each l :
  deletions
    (flat_map (fun key => [EvLog "[SW Luvano] Removendo cache antigo:" key;
                           EvDelete key]) l) = l.
Proof. induction l as [|x l IH]; cbn; [reflexivity | now f_equal]. Qed.

Lemma activate_version_run static dynamic w :
  activate_version static dynamic w =
  (Normal tt,
   mkWorld (location w)
     (foldl (fun cs key => delete_generation key cs) (caches w)
        (List.filter (fun key => (key !== static) && (key !== dynamic))
                     (keys w)))
     (network w)
     (log w ++ [EvLog "[SW Luvano] Activando service worker" ""; EvClaim] ++
      flat_map (fun key => [EvLog "[SW Luvano] Removendo cache antigo:" key;
                            EvDelete key])
        (List.filter (fun key => (key !== static) && (key !== dynamic))
                     (keys w)))
     (pending w)).
Proof.
  destruct w as [loc cs net lg pend]. unfold activate_version, keys. run.
  rewrite delete_each_run. cbn. now rewrite <- !app_assoc.
Qed.

Lemma outdated_iff static dynamic (l : list string) k :
  k ∈ List.filter (fun key => (key !== static) && (key !== dynamic)) l
  <-> k ∈ l /\ k <> static /\ k <> dynamic.
Proof.
  rewrite list_elem_of_In, filter_In, <- list_elem_of_In.
  rewrite andb_true_iff, !negb_true_iff, !eqb_false_iff. tauto.
Qed.

Lemma outdated_none static dynamic (l : list string) :
  (forall k, k ∈ l -> k = static \/ k = dynamic) ->
  List.filter (fun key => (key !== static) && (key !== dynamic)) l = [].
Proof.
  intros H.
  destruct (List.filter _ l) as [|k rest] eqn:E; [reflexivity|].
  assert (Hk : k ∈ List.filter
                 (fun key => (key !== static) && (key !== dynamic)) l)
    by (rewrite E; apply list_elem_of_here).
  apply outdated_iff in Hk as [Hin [H1 H2]].
  destruct (H k Hin); contradiction.
Qed.

Lemma activate_keys static dynamic w k :
  k ∈ keys (activate_version static dynamic w).2
  <-> k ∈ keys w /\ (k = static \/ k = dynamic).
Proof.
  rewrite activate_version_run. unfold keys at 1. cbn [snd caches].
  rewrite keys_delete_all, outdated_iff. fold (keys w).
  destruct (decide (k = static)), (decide (k = dynamic)); tauto.
Qed.

(* ===================================================================== *)
(** ** Installation *)
(* ===================================================================== *)

Lemma fetch_each_run requests : forall w,
  for_each fetch_start requests w =
  (Normal tt, with_log w (log w ++ map EvFetch requests)).
Proof.
  induction requests as [|request requests IH]; intros [loc cs net lg pend];
    cbn [for_each].
  - run. cbn. now rewrite app_nil_r.
  - run. rewrite IH. run. cbn. now rewrite <- app_assoc.
Qed.




Lemma put_each_run handle (responses : list (Request * Response)) :
  Forall (fun entry : Request * Response => storable entry.2 = true)
         responses ->
  forall w,
  for_each (fun entry => cache_put handle (url entry.1) entry.2) responses w =
  (Normal tt,
   mkWorld (location w)
     (foldl (fun cs entry => put_generation handle (url entry.1) entry.2 cs)
            (caches w) responses)
     (network w)
     (log w ++ map (fun entry => EvPut handle (url entry.1) entry.2) responses)
     (pending w)).
Proof.
  induction responses as [|entry responses IH]; intros Hall;
    intros [loc cs net lg pend]; cbn [for_each].
  - run. cbn. now rewrite app_nil_r.
  - apply Forall_cons in Hall as [Hs Hall].
    apply storable_iff in Hs as [_ Hp]. unfold bind at 1, cache_put at 1.
    rewrite Hp. run. rewrite (IH Hall). cbn. now rewrite <- app_assoc.
Qed.

Lemma keys_put_all handle (responses : list (Request * Response)) : forall cs,
  map fst (foldl (fun cs entry => put_generation handle (url entry.1) entry.2 cs)
                 cs responses) = map fst cs.
Proof.
  induction responses as [|entry responses IH]; intros cs; cbn [foldl];
    [reflexivity|].
  now rewrite IH, keys_put.
Qed.






Lemma collect_world requests : forall w,
  (collect (fun request =>
              response <- fetch_result request ;;
              if storable response then ret (request, response)
              else throw (TypeError "Request failed"))
           requests w).2 = w.
Proof.
  induction requests as [|request requests IH]; intros w; cbn [collect].
  - reflexivity.
  - destruct w as [loc cs net lg pend]. run.
    destruct (net request) as [r|]; [|reflexivity].
    destruct (storable r); [|reflexivity].
    specialize (IH (mkWorld loc cs net lg pend)).
    destruct (collect _ requests _) as [[rs|e] w']; exact IH.
Qed.

(** The two outcomes of the install handler, after the static generation
    has been opened and all the fetches have been issued. *)
Lemma install_version_outcome static w :
  let requests :=
    map (fun url => new_Request (location w) url "reload") STATIC_ASSETS in
  let issued :=
    mkWorld (location w) (open_generation static (caches w)) (network w)
      (log w ++
       [EvLog "[SW Luvano] Instalando versão:" CACHE_NAME;
        EvLog "[SW Luvano] Cacheando assets estáticos" ""] ++
       map EvFetch requests)
      (pending w) in
  install_version static w =
  match (collect (fun request =>
                    response <- fetch_result request ;;
                    if storable response then ret (request, response)
                    else throw (TypeError "Request failed"))
                 requests issued).1 with
  | Normal responses =>
      (Normal tt,
       mkWorld (location w)
         (foldl (fun cs entry => put_generation static (url entry.1) entry.2 cs)
                (open_generation static (caches w)) responses)
         (network w)
         (log issued ++
          map (fun entry => EvPut static (url entry.1) entry.2) responses ++
          [EvSkipWaiting])
         (pending w))
  | Throw e =>
      (Normal tt,
       with_log issued
         (log issued ++ [EvWarn "[SW Luvano] Erro no cache inicial:" e]))
  end.
Proof.
  destruct w as [loc cs net lg pend]. cbn zeta. cbn [location caches network log pending].
  unfold install_version, cache_addAll. run.
  rewrite fetch_each_run. run.
  rewrite <- !app_assoc. cbn [app].
  match goal with
  | |- context [collect ?f ?l ?w0] =>
      assert (Hw : (collect f l w0).2 = w0) by apply collect_world;
      pose proof (collect_storable_post l w0) as Hpost;
      destruct (collect f l w0) as [[responses|e] w'] eqn:Hc
  end; cbn [fst snd] in *; subst w'.
  - match goal with
    | |- context [for_each ?g responses ?w1] =>
        change (for_each g responses w1)
          with (for_each
                  (fun entry => cache_put static (url entry.1) entry.2)
                  responses w1)
    end.
    rewrite put_each_run by (eapply Hpost; exact Hc).
    cbn. now rewrite <- !app_assoc.
  - reflexivity.
Qed.









Lemma keys_install static w :
  keys (install_version static w).2 =
  map fst (open_generation static (caches w)).
Proof.
  rewrite install_version_outcome. cbn zeta. unfold keys.
  destruct (collect _ _ _).1; cbn [snd caches with_log]; [|reflexivity].
  apply keys_put_all.
Qed.

Lemma keys_open_mono name cs k :
  k ∈ map fst cs -> k ∈ map fst (open_generation name cs).
Proof.
  unfold open_generation. destruct (generation name cs); [easy|].
  intros H. rewrite map_app. apply elem_of_app. now left.
Qed.

(** C6 (as amended): activation deletes every existing generation whose
    name is neither the current static nor the current dynamic generation
    name, and no other; afterwards no generation other than the two current
    ones remains, and each of the two that existed before is still there
    with its content (activation creates none); repeating the activation
    performs no deletion; and when a release is installed and activated
    over a host that holds the static generation of a previous release,
    the new static generation exists and the previous one is gone. *)
Theorem activate_spec (static dynamic : string) (w : World) :
  (activate_version static dynamic w).1 = Normal tt /\
  (forall k, k ∈ keys (activate_version static dynamic w).2 <->
             k ∈ keys w /\ (k = static \/ k = dynamic)) /\
  (forall k, k = static \/ k = dynamic ->
     generation k (caches (activate_version static dynamic w).2) =
     generation k (caches w)) /\
  (forall k, k ∈ deletions (log (activate_version static dynamic w).2) <->
             k ∈ deletions (log w) \/
             (k ∈ keys w /\ k <> static /\ k <> dynamic)) /\
  deletions
    (log (activate_version static dynamic
            (activate_version static dynamic w).2).2) =
  deletions (log (activate_version static dynamic w).2) /\
  (forall previous,
     previous ∈ keys w -> previous <> static -> previous <> dynamic ->
     (static ∈ keys (activate_version static dynamic
                       (install_version static w).2).2) /\
     (previous ∉ keys (activate_version static dynamic
                         (install_version static w).2).2) /\
     (forall k, k ∈ keys (activate_version static dynamic
                            (install_version static w).2).2 ->
                k = static \/ k = dynamic)).
Proof.
  split; [now rewrite activate_version_run|].
  split; [apply activate_keys|].
  split; [|split; [|split]].
  - intros k Hk. rewrite activate_version_run. cbn [snd caches].
    apply generation_delete_all. rewrite outdated_iff. tauto.
  - intros k. rewrite activate_version_run. cbn [snd log].
    rewrite !deletions_app, deletions_delete_each. cbn.
    rewrite elem_of_app, outdated_iff. tauto.
  - rewrite (activate_version_run static dynamic
               (activate_version static dynamic w).2).
    cbn [snd log]. rewrite !deletions_app, deletions_delete_each.
    rewrite outdated_none; [cbn; now rewrite app_nil_r|].
    intros k Hk. exact (proj2 (proj1 (activate_keys static dynamic w k) Hk)).
  - intros previous Hin Hs Hd.
    pose proof (activate_keys static dynamic (install_version static w).2)
      as Hkeys.
    split; [|split].
    + apply (proj2 (Hkeys static)). split; [|now left].
      pose proof (keys_open static (caches w)) as Hopen.
      now rewrite <- keys_install in Hopen.
    + intros H. destruct (proj1 (Hkeys previous) H) as [_ [Heq | Heq]];
        contradiction.
    + intros k Hk. exact (proj2 (proj1 (Hkeys k) Hk)).
Qed.

(* ===================================================================== *)
(** ** Push notifications *)
(* ===================================================================== *)

Lemma get_field data name w :
  data <> JNull -> get data name w = (Normal (field data name), w).
Proof. destruct data; intros H; try reflexivity. contradiction. Qed.

Lemma uses_field_or_else v fallback : uses_field v fallback (or_else v fallback).
Proof.
  unfold uses_field, or_else. destruct v as [x|]; [|reflexivity].
  destruct (truthy (Some x)); reflexivity.
Qed.

(** C8 (as amended): for a push event that carries a payload, when the
    payload parses as JSON to a value other than null, one notification is
    displayed whose title, body, url and tag are the fields of those names
    of the parsed value where they are truthy, and the fixed fallbacks
    where they are missing or falsy; when parsing throws, the exception is
    caught and one notification is displayed whose title is "Luvano" and
    whose body is the raw text of the payload when that text is not empty,
    and the fallback body when it is empty. *)
Theorem on_push_spec (d : PushMessageData) (w : World) :
  (forall v, json d = Some v -> v <> JNull ->
     exists title options,
       on_push (Some d) w =
         (Normal tt, with_log w (log w ++ [EvNotify title options])) /\
       uses_field (field v "title") (JString "🛍️ Luvano") title /\
       uses_field (field v "body") (JString "Nova notificação")
                  (opt_body options) /\
       uses_field (field v "url") (JString "/notificacoes.html")
                  (opt_data_url options) /\
       uses_field (field v "tag") (JString "luvano-notif") (opt_tag options)) /\
  (json d = None ->
     exists options,
       on_push (Some d) w =
         (Normal tt,
          with_log w (log w ++ [EvNotify (JString "Luvano") options])) /\
       opt_body options =
         (if text d === "" then JString "Nova notificação"
          else JString (text d)) /\
       opt_data_url options = JString "/notificacoes.html" /\
       opt_tag options = JString "luvano-notif").
Proof.
  split.
  - intros v Hv Hnull. unfold on_push, data_json. rewrite Hv.
    unfold bind at 1. unfold try_catch, ret at 1.
    unfold bind. rewrite !(get_field v _ w Hnull).
    eexists _, _. split; [reflexivity|]. cbn [opt_body opt_data_url opt_tag].
    repeat split; apply uses_field_or_else.
  - intros Hd. unfold on_push, data_json. rewrite Hd.
    destruct w as [loc cs net lg pend]. run.
    eexists. split; [reflexivity|].
    cbn [opt_body opt_data_url opt_tag get member or_else truthy].
    repeat split. cbn. now destruct (text d === "").
Qed.

(** C10: a push event without a payload makes the handler return at once:
    nothing is displayed and the host state is unchanged. *)
Theorem on_push_without_payload (w : World) :
  on_push None w = (Normal tt, w) /\
  notifications (log (on_push None w).2) = notifications (log w).
Proof. split; reflexivity. Qed.

(* ===================================================================== *)
(** ** The specification at concrete requests and host states *)
(* ===================================================================== *)


(** The routing rules at one dispatched request each. *)
Lemma on_fetch_first_match_witness :
  on_fetch post_request = ret None /\
  on_fetch extension_request = ret None /\
  on_fetch api_request = respondWith (networkFirst api_request) /\
  on_fetch (navigation "/index.html")
    = respondWith (cacheFirst (navigation "/index.html")) /\
  on_fetch (picture "/logo.png")
    = respondWith (staleWhileRevalidate (picture "/logo.png")) /\
  on_fetch (navigation "/produto-123")
    = respondWith (networkFirst (navigation "/produto-123")).
Proof.
  assert (Hhttps : forall request,
            protocol (url request) = "https:" -> http_scheme request)
    by (intros request H; now right).
  assert (Hnot_api : forall path d,
            ~ network_first_host
                (mkRequest "GET" (luvano_url path) d "default")).
  { intros path d H. apply network_first_host_iff in H. vm_compute in H.
    discriminate. }
  assert (Hnot_asset : forall request,
            existsb (fun asset => asset === pathname (url request))
                    STATIC_ASSETS = false -> ~ static_asset request).
  { intros request E H. apply static_asset_iff in H. congruence. }
  split; [|split; [|split; [|split; [|split]]]].
  - apply (proj1 (on_fetch_first_match post_request
                    (or_introl (Hhttps post_request eq_refl)))).
    left. unfold is_GET. vm_compute. discriminate.
  - assert (Hext : ~ http_prefixed extension_request).
    { intros H. apply startsWith_iff in H. vm_compute in H. discriminate. }
    apply (proj1 (on_fetch_first_match extension_request (or_intror Hext))).
    right. intros [H | H]; vm_compute in H; discriminate.
  - apply (proj1 (proj2 (on_fetch_first_match api_request
                           (or_introl (Hhttps api_request eq_refl))))).
    + reflexivity.
    + now apply Hhttps.
    + exists "supabase.co", "abc.", "". split; [|reflexivity].
      apply list_elem_of_here.
  - apply (proj1 (proj2 (proj2 (on_fetch_first_match
                                  (navigation "/index.html")
                                  (or_introl (Hhttps (navigation "/index.html") eq_refl)))))).
    + reflexivity.
    + now apply Hhttps.
    + apply Hnot_api.
    + apply list_elem_of_further, list_elem_of_here.
  - apply (proj1 (proj2 (proj2 (proj2
             (on_fetch_first_match (picture "/logo.png")
                (or_introl (Hhttps (picture "/logo.png") eq_refl))))))).
    + reflexivity.
    + now apply Hhttps.
    + apply Hnot_api.
    + now apply Hnot_asset.
    + reflexivity.
  - apply (proj2 (proj2 (proj2 (proj2
             (on_fetch_first_match (navigation "/produto-123")
                (or_introl (Hhttps (navigation "/produto-123") eq_refl))))))).
    + reflexivity.
    + now apply Hhttps.
    + apply Hnot_api.
    + now apply Hnot_asset.
    + unfold is_image. vm_compute. discriminate.
Defined.

(** The scheme guard is a prefix test: a request of a scheme such as
    [httpx:], which no host dispatches, would pass it. *)
Lemma route_non_http_scheme_answered :
  is_GET httpx_request /\ ~ http_scheme httpx_request /\
  route httpx_request = Some NetworkFirst.
Proof.
  split; [reflexivity|]. split; [|reflexivity].
  intros [H | H]; vm_compute in H; discriminate.
Qed.







(** C5, at the input where the code departs from it: offline and with an
    empty cache storage, the fallback for a navigation resolves to no
    response at all, and so does the promise that the fetch listener
    answers with; for another destination the fallback is the empty 503
    response. *)
Theorem offlineFallback_without_shell :
  destination (navigation "/index.html") = "document" /\
  offlineFallback (navigation "/index.html") (fresh_world offline)
    = (Normal None, fresh_world offline) /\
  (on_fetch (navigation "/index.html") (fresh_world offline)).1
    = Normal (Some None) /\
  offlineFallback (picture "/logo.png") (fresh_world offline)
    = (Normal (Some (mkResponse 503 "Sem conexão" "")), fresh_world offline).
Proof. repeat split. Qed.

(** This release installed and activated over the generations of a
    previous release. *)
Lemma activate_spec_witness :
  "luvano-static-v0" ∈ keys (previous_world offline) /\
  STATIC_CACHE ∈ keys (activate_version STATIC_CACHE DYNAMIC_CACHE
                         (install_version STATIC_CACHE
                            (previous_world offline)).2).2 /\
  ("luvano-static-v0" ∉ keys (activate_version STATIC_CACHE DYNAMIC_CACHE
                                (install_version STATIC_CACHE
                                   (previous_world offline)).2).2) /\
  generation DYNAMIC_CACHE
    (caches (activate_version STATIC_CACHE DYNAMIC_CACHE
               (previous_world offline)).2) =
  generation DYNAMIC_CACHE (caches (previous_world offline)).
Proof.
  assert (Hin : "luvano-static-v0" ∈ keys (previous_world offline))
    by apply list_elem_of_here.
  pose proof (proj2 (proj2 (proj2 (proj2 (proj2
                (activate_spec STATIC_CACHE DYNAMIC_CACHE
                   (previous_world offline))))))
                "luvano-static-v0" Hin) as H.
  destruct H as [H1 [H2 _]]; [vm_compute; discriminate ..|].
  split; [exact Hin|]. split; [exact H1|]. split; [exact H2|].
  apply (proj1 (proj2 (proj2 (activate_spec STATIC_CACHE DYNAMIC_CACHE
                                (previous_world offline))))).
  now right.
Defined.

(** C6 as stated fails: after the first install and activation only the
    static generation exists; the dynamic generation has not been opened
    yet and activation does not create it. *)
Lemma activate_leaves_one_generation :
  keys (on_activate (on_install (fresh_world (online response_200))).2).2
    = [STATIC_CACHE] /\
  DYNAMIC_CACHE ∉
    keys (on_activate (on_install (fresh_world (online response_200))).2).2.
Proof.
  assert (H : keys (on_activate
                      (on_install (fresh_world (online response_200))).2).2
              = [STATIC_CACHE]) by (vm_compute; reflexivity).
  split; [exact H|]. rewrite H. intros Hin.
  apply list_elem_of_singleton in Hin. vm_compute in Hin. discriminate.
Qed.


(** The order notification of the end-to-end scenario, and a payload
    that is plain text. *)
Lemma on_push_spec_witness :
  (exists title options,
     on_push (Some order_shipped) (fresh_world offline) =
       (Normal tt,
        with_log (fresh_world offline) [EvNotify title options]) /\
     title = JString "Order shipped" /\
     opt_body options = JString "Your item is on its way" /\
     opt_data_url options = JString "/compras.html" /\
     opt_tag options = JString "luvano-notif") /\
  (exists options,
     on_push (Some plain_text_push) (fresh_world offline) =
       (Normal tt,
        with_log (fresh_world offline)
          [EvNotify (JString "Luvano") options]) /\
     opt_body options = JString "Promo de hoje").
Proof.
  split.
  - destruct (proj1 (on_push_spec order_shipped (fresh_world offline))
                (JObject [("title", JString "Order shipped");
                          ("body", JString "Your item is on its way");
                          ("url", JString "/compras.html")]))
      as [title [options [Hrun [Ht [Hb [Hu Hg]]]]]].
    + reflexivity.
    + discriminate.
    + exists title, options. split; [exact Hrun|].
      vm_compute in Ht, Hb, Hu, Hg.
      inversion Ht. inversion Hb. inversion Hu. auto.
  - destruct (proj2 (on_push_spec plain_text_push (fresh_world offline)))
      as [options [Hrun [Hb _]]].
    + reflexivity.
    + exists options. split; [exact Hrun | exact Hb].
Defined.

(** C8 as stated fails: for a payload that is present and empty, parsing
    throws and the body of the notification is the fallback body, not the
    raw text of the payload. *)
Lemma on_push_empty_text_body :
  json empty_push = None /\
  exists options,
    notifications (log (on_push (Some empty_push) (fresh_world offline)).2)
      = [(JString "Luvano", options)] /\
    opt_body options = JString "Nova notificação" /\
    opt_body options <> JString (text empty_push).
Proof.
  split; [reflexivity|]. eexists. split; [vm_compute; reflexivity|].
  split; [reflexivity | vm_compute; discriminate].
Qed.

(** The invariant after a revalidation, and over a short life of the
    worker. *)
Lemma strategies_store_only_ok_witness :
  all_ok (caches (settle (apply_strategy StaleWhileRevalidate
                            (picture "/logo.png")
                            (gallery_world (online response_200))).2)) /\
  ok response_200 = true.
Proof.
  split.
  - apply (proj1 strategies_store_only_ok StaleWhileRevalidate
             (picture "/logo.png") (gallery_world (online response_200))).
    intros name c key r Hin Hl.
    apply list_elem_of_singleton in Hin. inversion Hin. subst.
    apply lookup_singleton_Some in Hl as [_ <-]. reflexivity.
  - apply (proj2 (proj2 strategies_store_only_ok)
             [Install; Activate; Fetch (navigation "/produto-123"); Idle]
             (fresh_world (online response_200))
             eq_refl
             DYNAMIC_CACHE (luvano_url "/produto-123") response_200).
    vm_compute. reflexivity.
Defined.

(* ===================================================================== *)
(** ** Further properties of the strategies *)
(* ===================================================================== *)

Ltac fallback_runs :=
  match goal with
  | |- context [offlineFallback ?r ?w0] =>
      let res := fresh "res" in
      destruct (offlineFallback_pure r w0) as [res ->]
  end.

(** X1: no strategy ever throws: for every request and host state,
    cache-first, network-first and stale-while-revalidate complete
    normally, and so does the fetch listener. *)
Theorem strategies_never_throw (request : Request) (w : World) :
  (forall s, exists r, (apply_strategy s request w).1 = Normal r) /\
  exists answer, (on_fetch request w).1 = Normal answer.
Proof.
  assert (H : forall s, exists r, (apply_strategy s request w).1 = Normal r).
  { destruct w as [loc cs net lg pend]. intros [| |]; cbn [apply_strategy].
    - unfold networkFirst. run.
      destruct (net request) as [r|].
      + destruct (ok r), (is_partial r); eauto.
      + destruct (match_all (url request) cs); [eauto|]. fallback_runs. eauto.
    - unfold cacheFirst. run.
      destruct (match_all (url request) cs); [eauto|].
      destruct (net request) as [r|].
      + destruct (ok r), (is_partial r); eauto.
      + fallback_runs. eauto.
    - unfold staleWhileRevalidate, revalidate. run.
      destruct (generation DYNAMIC_CACHE _ ≫= _); [eauto|].
      destruct (net request) as [r|].
      + destruct (ok r), (is_partial r); eauto.
      + fallback_runs. eauto. }
  split; [exact H|].
  rewrite on_fetch_route. destruct (route request) as [s|]; [|eauto].
  destruct (H s) as [r Hr].
  destruct (apply_strategy s request w) as [[r'|e] w']; [eauto|discriminate].
Qed.

(** X2: network-first does not mask an HTTP error: a response whose status
    is outside the ok range is returned as it is, nothing is written and
    the cache storage is unchanged, whether or not a copy of the request is
    cached. *)
Theorem networkFirst_returns_http_error (request : Request) (w : World)
    (r : Response) :
  network w request = Some r -> ok r = false ->
  (networkFirst request w).1 = Normal (Some r) /\
  caches (networkFirst request w).2 = caches w /\
  puts (log (networkFirst request w).2) = puts (log w).
Proof.
  intros Hn Hok. rewrite (networkFirst_non_ok request w r Hn Hok).
  destruct w as [loc cs net lg pend]. cbn.
  repeat split. rewrite puts_app. cbn. now rewrite app_nil_r.
Qed.

Lemma networkFirst_returns_http_error_witness :
  (networkFirst (navigation "/index.html")
     (shell_world (online response_500))).1 = Normal (Some response_500) /\
  caches (networkFirst (navigation "/index.html")
            (shell_world (online response_500))).2
    = caches (shell_world (online response_500)).
Proof.
  destruct (networkFirst_returns_http_error (navigation "/index.html")
              (shell_world (online response_500)) response_500)
    as [H1 [H2 _]]; [reflexivity | reflexivity |].
  split; [exact H1 | exact H2].
Defined.

(** X3: on a cache miss, cache-first returns a response whose status is
    outside the ok range as it is and stores nothing: the cache storage is
    unchanged, so the next request for the same URL fetches again. *)
Theorem cacheFirst_does_not_store_http_error (request : Request) (w : World)
    (r : Response) :
  match_all (url request) (caches w) = None ->
  network w request = Some r -> ok r = false ->
  (cacheFirst request w).1 = Normal (Some r) /\
  caches (cacheFirst request w).2 = caches w /\
  match_all (url request) (caches (cacheFirst request w).2) = None.
Proof.
  intros Hc Hn Hok. rewrite (cacheFirst_non_ok request w r Hc Hn Hok).
  destruct w as [loc cs net lg pend]. cbn in *. auto.
Qed.

Lemma cacheFirst_does_not_store_http_error_witness :
  (cacheFirst (navigation "/index.html")
     (fresh_world (online response_404))).1 = Normal (Some response_404) /\
  caches (cacheFirst (navigation "/index.html")
            (fresh_world (online response_404))).2 = [].
Proof.
  destruct (cacheFirst_does_not_store_http_error (navigation "/index.html")
              (fresh_world (online response_404)) response_404)
    as [H1 [H2 _]]; [reflexivity | reflexivity | reflexivity |].
  split; [exact H1 | exact H2].
Defined.

Lemma lookup_after_open name key cs :
  generation name (open_generation name cs) ≫= (fun c => c !! key)
  = generation name cs ≫= (fun c : gmap URL Response => c !! key).
Proof.
  rewrite generation_open_same.
  destruct (generation name cs); [reflexivity|]. cbn. apply lookup_empty.
Qed.

(** X4: when stale-while-revalidate has returned a cached copy and the
    revalidation then fails, because the fetch throws or resolves with a
    status outside the ok range, the cache storage is left as it was: the
    cached copy stays in place. *)
Theorem staleWhileRevalidate_keeps_copy_on_failure (request : Request)
    (w : World) (c : Response) :
  entry DYNAMIC_CACHE (url request) w = Some c ->
  pending w = [] ->
  (network w request = None \/
   exists r, network w request = Some r /\ ok r = false) ->
  (staleWhileRevalidate request w).1 = Normal (Some c) /\
  caches (settle (staleWhileRevalidate request w).2) = caches w /\
  pending (settle (staleWhileRevalidate request w).2) = [].
Proof.
  destruct w as [loc cs net lg pend].
  unfold staleWhileRevalidate, entry. intros Hc Hp Hn. run. subst pend.
  rewrite lookup_after_open, Hc.
  destruct (generation DYNAMIC_CACHE cs) as [g|] eqn:Hg; [|discriminate].
  rewrite (open_generation_existing _ _ _ Hg).
  unfold settle, run_task, revalidate. run. cbn [for_each app]. run.
  destruct Hn as [Hn | [r [Hn Hok]]].
  - rewrite Hn. auto.
  - rewrite Hn, Hok. auto.
Qed.

Lemma staleWhileRevalidate_keeps_copy_on_failure_witness :
  (staleWhileRevalidate (picture "/logo.png") (gallery_world offline)).1
    = Normal (Some response_stale) /\
  caches (settle (staleWhileRevalidate (picture "/logo.png")
                    (gallery_world (online response_404))).2)
    = caches (gallery_world (online response_404)).
Proof.
  split.
  - apply (staleWhileRevalidate_keeps_copy_on_failure (picture "/logo.png")
             (gallery_world offline) response_stale).
    + vm_compute. reflexivity.
    + reflexivity.
    + left. reflexivity.
  - apply (staleWhileRevalidate_keeps_copy_on_failure (picture "/logo.png")
             (gallery_world (online response_404)) response_stale).
    + vm_compute. reflexivity.
    + reflexivity.
    + right. exists response_404. split; reflexivity.
Defined.

(** X5: stale-while-revalidate reads the dynamic generation only: when the
    dynamic generation has no copy and the fetch throws, a request that is
    not a navigation gets the empty 503 response, even if another
    generation holds a copy of it. *)
Theorem staleWhileRevalidate_reads_dynamic_only (request : Request)
    (w : World) :
  entry DYNAMIC_CACHE (url request) w = None ->
  network w request = None ->
  destination request <> "document" ->
  (staleWhileRevalidate request w).1
    = Normal (Some (mkResponse 503 "Sem conexão" "")).
Proof.
  destruct w as [loc cs net lg pend].
  unfold staleWhileRevalidate, revalidate, entry. intros Hc Hn Hd. run.
  rewrite lookup_after_open, Hc, Hn.
  now rewrite offlineFallback_other.
Qed.

Lemma staleWhileRevalidate_reads_dynamic_only_witness :
  match_all (url (picture "/logo.png")) (caches (stocked_world offline))
    = Some response_stale /\
  (staleWhileRevalidate (picture "/logo.png") (stocked_world offline)).1
    = Normal (Some (mkResponse 503 "Sem conexão" "")).
Proof.
  split; [vm_compute; reflexivity|].
  apply (staleWhileRevalidate_reads_dynamic_only (picture "/logo.png")
           (stocked_world offline)).
  - vm_compute. reflexivity.
  - reflexivity.
  - vm_compute. discriminate.
Defined.

Lemma route_document_not_revalidated request :
  destination request = "document" ->
  route request <> Some StaleWhileRevalidate.
Proof.
  intros Hd. unfold route. rewrite Hd.
  change ("document" === "image") with false.
  set (get := method request !== "GET").
  set (http := negb (startsWith (protocol (url request)) "http")).
  set (api := existsb _ NETWORK_FIRST).
  set (asset := existsb _ STATIC_ASSETS).
  destruct get, http, api, asset; discriminate.
Qed.

(** X6: the app shell answers failed navigations: when a navigation that
    the worker answers finds the network down and no cached copy of its own
    URL, the listener responds with the cached copy of /index.html. *)
Theorem offline_navigation_gets_shell (request : Request) (w : World)
    (shell : Response) :
  route request <> None ->
  destination request = "document" ->
  network w request = None ->
  match_all (url request) (caches w) = None ->
  match_all (resolve (location w) "/index.html") (caches w) = Some shell ->
  (on_fetch request w).1 = Normal (Some (Some shell)).
Proof.
  intros Hr Hd Hn Hc Hs. rewrite on_fetch_route.
  pose proof (route_document_not_revalidated request Hd) as Hnot.
  destruct (route request) as [[| |]|]; try contradiction.
  - cbn [apply_strategy]. destruct w as [loc cs net lg pend].
    unfold networkFirst. run. rewrite Hn, Hc.
    rewrite (offlineFallback_document _ _ Hd). cbn. now rewrite Hs.
  - cbn [apply_strategy]. destruct w as [loc cs net lg pend].
    unfold cacheFirst. run. rewrite Hc, Hn.
    rewrite (offlineFallback_document _ _ Hd). cbn. now rewrite Hs.
Qed.

Lemma offline_navigation_gets_shell_witness :
  (on_fetch (navigation "/produto-123") (shell_world offline)).1
    = Normal (Some (Some response_stale)).
Proof.
  apply (offline_navigation_gets_shell (navigation "/produto-123")
           (shell_world offline) response_stale).
  - vm_compute. discriminate.
  - reflexivity.
  - reflexivity.
  - vm_compute. reflexivity.
  - vm_compute. reflexivity.
Defined.

(* ===================================================================== *)
(** ** Further properties of installation *)
(* ===================================================================== *)

Lemma generation_put_all_other handle name
    (responses : list (Request * Response)) : forall cs,
  handle <> name ->
  generation name
    (foldl (fun cs entry => put_generation handle (url entry.1) entry.2 cs)
           cs responses) = generation name cs.
Proof.
  induction responses as [|entry responses IH]; intros cs Hne; cbn [foldl];
    [reflexivity|].
  rewrite IH by exact Hne. rewrite generation_put.
  apply eqb_false_iff in Hne. now rewrite Hne.
Qed.








Lemma deletions_issued requests : deletions (map EvFetch requests) = [].
Proof. induction requests as [|r l IH]; cbn; [reflexivity | exact IH]. Qed.

Lemma deletions_stores static (responses : list (Request * Response)) :
  deletions (map (fun entry => EvPut static (url entry.1) entry.2) responses)
  = [].
Proof. induction responses as [|e l IH]; cbn; [reflexivity | exact IH]. Qed.

(** X8: the install handler writes to the static generation only: every
    generation with another name keeps its content, no generation is
    removed, and the static generation is created when it did not exist. *)
Theorem install_writes_static_only (static : string) (w : World) :
  (forall name, name <> static ->
     generation name (caches (install_version static w).2)
     = generation name (caches w)) /\
  (forall name, name ∈ keys w -> name ∈ keys (install_version static w).2) /\
  static ∈ keys (install_version static w).2 /\
  deletions (log (install_version static w).2) = deletions (log w).
Proof.
  split; [|split; [|split]].
  - intros name Hne. rewrite install_version_outcome. cbn zeta.
    assert (Hopen : generation name (open_generation static (caches w))
                    = generation name (caches w)).
    { rewrite generation_open.
      destruct (generation name (caches w)); [reflexivity|].
      destruct (static === name) eqn:E; [|reflexivity].
      apply eqb_true_iff in E. congruence. }
    destruct (collect _ _ _).1; cbn [snd caches with_log].
    + rewrite generation_put_all_other by congruence. exact Hopen.
    + exact Hopen.
  - intros name Hin. rewrite keys_install. now apply keys_open_mono.
  - rewrite keys_install. apply keys_open.
  - rewrite install_version_outcome. cbn zeta.
    destruct (collect _ _ _).1; cbn [snd log with_log];
      rewrite !deletions_app, ?deletions_stores, deletions_issued; cbn;
      now rewrite !app_nil_r.
Qed.

Lemma install_writes_static_only_witness :
  generation DYNAMIC_CACHE
    (caches (install_version STATIC_CACHE
               (gallery_world (online response_200))).2)
  = generation DYNAMIC_CACHE (caches (gallery_world (online response_200))) /\
  DYNAMIC_CACHE ∈
    keys (install_version STATIC_CACHE (gallery_world (online response_200))).2.
Proof.
  split.
  - apply (proj1 (install_writes_static_only STATIC_CACHE
                    (gallery_world (online response_200)))).
    vm_compute. discriminate.
  - apply (proj1 (proj2 (install_writes_static_only STATIC_CACHE
                           (gallery_world (online response_200))))).
    apply list_elem_of_here.
Defined.

(* ===================================================================== *)
(** ** Further properties of the push handler *)
(* ===================================================================== *)

Lemma notifications_app l l' :
  notifications (l ++ l') = notifications l ++ notifications l'.
Proof. apply omap_app. Qed.

(** X9: a payload that parses to [null] makes the push handler throw a
    TypeError at its first property read: nothing is displayed and the
    host state is unchanged. *)
Theorem on_push_null_payload_throws (d : PushMessageData) (w : World) :
  json d = Some JNull ->
  exists msg, on_push (Some d) w = (Throw (TypeError msg), w).
Proof.
  intros Hd. unfold on_push, data_json. rewrite Hd.
  destruct w as [loc cs net lg pend]. unfold get. run. eauto.
Qed.

Lemma on_push_null_payload_throws_witness :
  exists msg,
    on_push (Some null_push) (fresh_world offline)
    = (Throw (TypeError msg), fresh_world offline).
Proof.
  apply (on_push_null_payload_throws null_push (fresh_world offline)).
  reflexivity.
Defined.

(** X10: a payload that is valid JSON and neither an object nor [null] (a
    number, a string, a boolean, an array) has none of the fields the
    handler reads: the notification shows the four fallbacks and nothing of
    the payload. *)
Theorem on_push_non_object_payload (d : PushMessageData) (w : World)
    (v : JSON) :
  json d = Some v -> v <> JNull -> (forall members, v <> JObject members) ->
  on_push (Some d) w =
  (Normal tt,
   with_log w
     (log w ++
      [EvNotify (JString "🛍️ Luvano")
         {| opt_body := JString "Nova notificação"
          ; opt_vibrate := [200; 100; 200]
          ; opt_data_url := JString "/notificacoes.html"
          ; opt_actions := [("ver", "Ver"); ("fechar", "Fechar")]
          ; opt_tag := JString "luvano-notif"
          ; opt_renotify := true |}])).
Proof.
  intros Hd Hnull Hobj. unfold on_push, data_json. rewrite Hd.
  destruct w as [loc cs net lg pend]. unfold get.
  destruct v; try contradiction; try reflexivity.
  now elim (Hobj members).
Qed.

Lemma on_push_non_object_payload_witness :
  notifications (log (on_push (Some number_push) (fresh_world offline)).2)
  = [(JString "🛍️ Luvano",
      {| opt_body := JString "Nova notificação"
       ; opt_vibrate := [200; 100; 200]
       ; opt_data_url := JString "/notificacoes.html"
       ; opt_actions := [("ver", "Ver"); ("fechar", "Fechar")]
       ; opt_tag := JString "luvano-notif"
       ; opt_renotify := true |})].
Proof.
  rewrite (on_push_non_object_payload number_push (fresh_world offline)
             (JNumber (S754_finite false 42%positive 0))).
  - reflexivity.
  - reflexivity.
  - discriminate.
  - discriminate.
Defined.

(** X11: the push handler touches nothing but the notification surface:
    for every event and host state the cache storage and the pending tasks
    are unchanged, no fetch is issued, nothing is written, and at most one
    notification is displayed. *)
Theorem on_push_only_notifies (data : option PushMessageData) (w : World) :
  caches (on_push data w).2 = caches w /\
  pending (on_push data w).2 = pending w /\
  fetches (log (on_push data w).2) = fetches (log w) /\
  puts (log (on_push data w).2) = puts (log w) /\
  (notifications (log (on_push data w).2) = notifications (log w) \/
   exists shown,
     notifications (log (on_push data w).2) = notifications (log w) ++ [shown]).
Proof.
  destruct w as [loc cs net lg pend].
  destruct data as [d|]; [|cbn; auto 6].
  unfold on_push, data_json, get.
  destruct (json d) as [v|]; [destruct v|]; run;
    cbn [fst snd caches pending log];
    rewrite ?fetches_app, ?puts_app, ?notifications_app; cbn;
    rewrite ?app_nil_r; eauto 8.
Qed.

(* ===================================================================== *)
(** ** Notification clicks *)
(* ===================================================================== *)

Lemma reuse_or_open_skip self_origin target before rest :
  (forall c, c ∈ before -> includes (client_url c) self_origin = false) ->
  reuse_or_open self_origin target (before ++ rest)
  = reuse_or_open self_origin target rest.
Proof.
  induction before as [|c before IH]; intros H; [reflexivity|].
  cbn [app reuse_or_open].
  rewrite (H c) by apply list_elem_of_here.
  apply IH. intros c' Hc'. apply H. now apply list_elem_of_further.
Qed.

Lemma reuse_or_open_shape self_origin target clientList :
  (exists client,
     client ∈ clientList /\
     includes (client_url client) self_origin = true /\
     reuse_or_open self_origin target clientList
     = [Navigate client target; Focus client]) \/
  ((forall c, c ∈ clientList -> includes (client_url c) self_origin = false) /\
   reuse_or_open self_origin target clientList = [OpenWindow target]).
Proof.
  induction clientList as [|c rest IH]; cbn [reuse_or_open].
  - right. split; [|reflexivity]. intros c Hc. now apply elem_of_nil in Hc.
  - destruct (includes (client_url c) self_origin) eqn:E.
    + left. exists c. split; [apply list_elem_of_here | auto].
    + destruct IH as [[client [Hin [Hm Hr]]] | [Hnone Hr]].
      * left. exists client. split; [now apply list_elem_of_further | auto].
      * right. split; [|exact Hr].
        intros c' Hc'. apply elem_of_cons in Hc' as [-> | Hc']; auto.
Qed.

(** X12: a click always closes the notification first and then touches at
    most one window: the dismiss action does nothing more; any other action
    either navigates and focuses one listed client whose URL contains the
    worker's origin, or, when no listed client does, opens one window. *)
Theorem on_notificationclick_shape (base : URL) (action : string)
    (data : option JSON) (clientList : list WindowClient) :
  (action = "fechar" ->
     on_notificationclick base action data clientList = [Close]) /\
  (action <> "fechar" ->
     (exists client target,
        client ∈ clientList /\
        includes (client_url client) (origin base) = true /\
        on_notificationclick base action data clientList
        = [Close; Navigate client target; Focus client]) \/
     (exists target,
        (forall c, c ∈ clientList ->
           includes (client_url c) (origin base) = false) /\
        on_notificationclick base action data clientList
        = [Close; OpenWindow target])).
Proof.
  unfold on_notificationclick. split.
  - intros ->. reflexivity.
  - intros Hne. apply eqb_false_iff in Hne. rewrite Hne. cbn zeta.
    destruct (reuse_or_open_shape (origin base)
                (or_else (data ≫= fun d => field d "url")
                         (JString "/notificacoes.html")) clientList)
      as [[client [Hin [Hm Hr]]] | [Hnone Hr]]; rewrite Hr.
    + left. eauto.
    + right. eauto.
Qed.

Lemma on_notificationclick_shape_witness :
  on_notificationclick luvano_location "fechar"
    (Some (JObject [("url", JString "/compras.html")])) [shop_tab]
  = [Close].
Proof.
  apply (proj1 (on_notificationclick_shape luvano_location "fechar"
                  (Some (JObject [("url", JString "/compras.html")]))
                  [shop_tab])).
  reflexivity.
Defined.

(** X13: the window that is reused is the first client of the list whose
    URL contains the worker's origin: the clients before it are left alone,
    the ones after it are not looked at, and no window is opened. *)
Theorem on_notificationclick_first_match (base : URL) (action : string)
    (data : option JSON) (before after : list WindowClient)
    (client : WindowClient) :
  action <> "fechar" ->
  (forall c, c ∈ before -> includes (client_url c) (origin base) = false) ->
  includes (client_url client) (origin base) = true ->
  exists target,
    uses_field (data ≫= fun d => field d "url")
               (JString "/notificacoes.html") target /\
    on_notificationclick base action data (before ++ client :: after)
    = [Close; Navigate client target; Focus client].
Proof.
  intros Hne Hbefore Hm. unfold on_notificationclick.
  apply eqb_false_iff in Hne. rewrite Hne. cbn zeta.
  rewrite (reuse_or_open_skip _ _ _ _ Hbefore). cbn [reuse_or_open].
  rewrite Hm. eexists. split; [apply uses_field_or_else | reflexivity].
Qed.

Lemma on_notificationclick_first_match_witness :
  exists target,
    uses_field (Some (JString "/compras.html"))
               (JString "/notificacoes.html") target /\
    on_notificationclick luvano_location "ver"
      (Some (JObject [("url", JString "/compras.html")]))
      ([other_tab] ++ shop_tab :: [chat_tab])
    = [Close; Navigate shop_tab target; Focus shop_tab].
Proof.
  apply (on_notificationclick_first_match luvano_location "ver"
           (Some (JObject [("url", JString "/compras.html")]))
           [other_tab] [chat_tab] shop_tab).
  - discriminate.
  - intros c Hc. apply list_elem_of_singleton in Hc. subst c.
    vm_compute. reflexivity.
  - vm_compute. reflexivity.
Defined.

(** X14: a notification without data does not make the click handler
    throw: when [event.notification.data] is undefined or null, or carries
    no truthy url, the target is /notificacoes.html. *)
Theorem on_notificationclick_without_url (base : URL) (action : string)
    (data : option JSON) (clientList : list WindowClient) :
  action <> "fechar" ->
  truthy (data ≫= fun d => field d "url") = false ->
  on_notificationclick base action data clientList
  = Close :: reuse_or_open (origin base) (JString "/notificacoes.html")
               clientList.
Proof.
  intros Hne Hf. unfold on_notificationclick.
  apply eqb_false_iff in Hne. rewrite Hne. cbn zeta.
  unfold or_else. rewrite Hf. now destruct (data ≫= _).
Qed.

Lemma on_notificationclick_without_url_witness :
  on_notificationclick luvano_location "" None [] =
    [Close; OpenWindow (JString "/notificacoes.html")] /\
  on_notificationclick luvano_location "" (Some JNull) [other_tab] =
    [Close; OpenWindow (JString "/notificacoes.html")].
Proof.
  split.
  - apply (on_notificationclick_without_url luvano_location "" None []).
    + discriminate.
    + reflexivity.
  - apply (on_notificationclick_without_url luvano_location "" (Some JNull)
             [other_tab]).
    + discriminate.
    + reflexivity.
Defined.

Lemma notifications_single title options :
  notifications [EvNotify title options] = [(title, options)].
Proof. reflexivity. Qed.

Lemma or_else_truthy v fallback :
  truthy (Some fallback) = true -> truthy (Some (or_else v fallback)) = true.
Proof.
  intros Hf. unfold or_else. destruct v as [x|]; [|exact Hf].
  destruct (truthy (Some x)) eqn:E; [exact E | exact Hf].
Qed.

(** The url stored in a notification that the push handler displays is
    truthy. *)
Lemma on_push_shown_url d w title options :
  notifications (log (on_push (Some d) w).2)
    = notifications (log w) ++ [(title, options)] ->
  truthy (Some (opt_data_url options)) = true.
Proof.
  destruct w as [loc cs net lg pend].
  unfold on_push, data_json, get.
  destruct (json d) as [v|]; [destruct v|]; run;
    rewrite ?notifications_app, ?notifications_single; intros Hshown;
    try (apply app_inv_head in Hshown; injection Hshown as _ <-;
         first [ reflexivity
               | cbn [opt_data_url]; apply or_else_truthy; reflexivity ]).
  symmetry in Hshown. rewrite <- (app_nil_r (notifications lg)) in Hshown at 2.
  apply app_inv_head in Hshown. discriminate.
Qed.

(** X15: push and click compose: whatever notification the push handler
    displays, a click on it that is not a dismissal goes to the url the
    push handler stored in its data; with no window to reuse, exactly that
    url is opened, and the click handler's own fallback is never used. *)
Theorem push_then_click_opens_stored_url (d : PushMessageData) (w : World)
    (title : JSON) (options : NotificationOptions)
    (base : URL) (action : string) (clientList : list WindowClient) :
  notifications (log (on_push (Some d) w).2)
    = notifications (log w) ++ [(title, options)] ->
  action <> "fechar" ->
  (forall c, c ∈ clientList ->
     includes (client_url c) (origin base) = false) ->
  on_notificationclick base action (Some (notification_data options))
    clientList
  = [Close; OpenWindow (opt_data_url options)].
Proof.
  intros Hshown Hne Hnone.
  assert (Htruthy : truthy (Some (opt_data_url options)) = true).
  { exact (on_push_shown_url d w title options Hshown). }
  unfold on_notificationclick, notification_data.
  apply eqb_false_iff in Hne. rewrite Hne. cbn zeta.
  cbn [mbind option_bind field member]. rewrite String.eqb_refl.
  unfold or_else. rewrite Htruthy.
  rewrite <- (app_nil_r clientList), (reuse_or_open_skip _ _ _ _ Hnone).
  reflexivity.
Qed.

Lemma push_then_click_opens_stored_url_witness :
  on_notificationclick luvano_location "ver"
    (Some (JObject [("url", JString "/compras.html")])) []
  = [Close; OpenWindow (JString "/compras.html")].
Proof.
  apply (push_then_click_opens_stored_url order_shipped (fresh_world offline)
           (JString "Order shipped")
           {| opt_body := JString "Your item is on its way"
            ; opt_vibrate := [200; 100; 200]
            ; opt_data_url := JString "/compras.html"
            ; opt_actions := [("ver", "Ver"); ("fechar", "Fechar")]
            ; opt_tag := JString "luvano-notif"
            ; opt_renotify := true |}
           luvano_location "ver" []).
  - vm_compute. reflexivity.
  - discriminate.
  - intros c Hc. now apply elem_of_nil in Hc.
Defined.

(* ===================================================================== *)
(** ** Background sync *)
(* ===================================================================== *)

(** X16: the sync handler is a placeholder: for the tag "luvano-sync" it
    only writes to the console, and for every other tag it does nothing at
    all; for every tag it completes normally, leaves the cache storage and
    the pending tasks unchanged, issues no fetch and displays nothing. *)
Theorem on_sync_placeholder (tag : string) (w : World) :
  (on_sync tag w).1 = Normal tt /\
  caches (on_sync tag w).2 = caches w /\
  pending (on_sync tag w).2 = pending w /\
  fetches (log (on_sync tag w).2) = fetches (log w) /\
  puts (log (on_sync tag w).2) = puts (log w) /\
  notifications (log (on_sync tag w).2) = notifications (log w) /\
  (tag <> "luvano-sync" -> on_sync tag w = (Normal tt, w)).
Proof.
  destruct w as [loc cs net lg pend]. unfold on_sync, sincronizarDados.
  destruct (tag === "luvano-sync") eqn:E.
  - run. rewrite !fetches_app, !puts_app, !notifications_app. cbn.
    rewrite !app_nil_r. repeat split.
    intros Hne. apply eqb_true_iff in E. contradiction.
  - repeat split.
Qed.

Lemma on_sync_placeholder_witness :
  on_sync "periodic-refresh" (shell_world offline)
  = (Normal tt, shell_world offline).
Proof.
  apply (proj2 (proj2 (proj2 (proj2 (proj2 (proj2
           (on_sync_placeholder "periodic-refresh" (shell_world offline)))))))).
  discriminate.
Defined.

(* ===================================================================== *)
(** ** What a strategy stores is what it serves next *)
(* ===================================================================== *)















